(** * Interframe-difference motion mask of SerialController/TestImageRecognition.py

    The script's [getInterframeDiff] is a straight pipeline of four OpenCV
    calls on single-channel 8-bit images:

      diff1  = cv2.absdiff(frame1, frame2)
      diff2  = cv2.absdiff(frame2, frame3)
      diff   = cv2.bitwise_and(diff1, diff2)
      img_th = cv2.threshold(diff, threshold, 255, cv2.THRESH_BINARY)[1]
      mask   = cv2.medianBlur(img_th, 3)

    Module [Cv2] gives the four primitives their documented meaning on
    CV_8UC1 matrices; [getInterframeDiff] is then the function of the script,
    written in the exception monad the calls live in. *)

From Stdlib Require Import ZArith List Lia Bool Arith Sorted.
Import ListNotations.

Open Scope Z_scope.

(** ** Exceptions *)

(** The two [cv2.error] codes the array operations can raise here. *)
Inductive cv2_error : Type :=
| StsUnmatchedSizes   (* "Sizes of input arguments do not match" *)
| StsAssert.          (* a failed CV_Assert *)

Inductive result (A : Type) : Type :=
| Ok (a : A)
| Raise (e : cv2_error).

Arguments Ok {A} a.
Arguments Raise {A} e.

Definition bind {A B : Type} (m : result A) (k : A -> result B) : result B :=
  match m with
  | Ok a => k a
  | Raise e => Raise e
  end.

Notation "x <- m ;; k" := (bind m (fun x => k))
  (at level 61, m at next level, right associativity).

(** ** Images *)

(** A single-channel image, row by row, as a numpy 2-D array. *)
Definition Mat : Type := list (list Z).

Definition rows (m : Mat) : nat := length m.

Definition cols (m : Mat) : nat :=
  match m with
  | [] => 0%nat
  | r :: _ => length r
  end.

Definition shape (m : Mat) : nat * nat := (rows m, cols m).

Definition shape_eqb (m1 m2 : Mat) : bool :=
  Nat.eqb (rows m1) (rows m2) && Nat.eqb (cols m1) (cols m2).

(** Sample at row [r], column [c]. *)
Definition px (m : Mat) (r c : Z) : Z :=
  nth (Z.to_nat c) (nth (Z.to_nat r) m []) 0.

Definition u8 (x : Z) : Prop := 0 <= x <= 255.

(** [Frame h w m]: [m] is a non-empty [h] x [w] grid of 8-bit samples. *)
Definition Frame (h w : nat) (m : Mat) : Prop :=
  (0 < h)%nat /\ (0 < w)%nat /\ length m = h /\
  Forall (fun row => length row = w /\ Forall u8 row) m.

(** The grid whose sample at ([r], [c]) is [f r c]. *)
Definition tabulate (h w : nat) (f : Z -> Z -> Z) : Mat :=
  map (fun r => map (fun c => f (Z.of_nat r) (Z.of_nat c)) (seq 0 w)) (seq 0 h).

Fixpoint map2 {A B C : Type} (f : A -> B -> C) (l1 : list A) (l2 : list B)
  : list C :=
  match l1, l2 with
  | a :: l1', b :: l2' => f a b :: map2 f l1' l2'
  | _, _ => []
  end.

(** Number of samples of [m] equal to [v]. *)
Definition count_px (v : Z) (m : Mat) : nat :=
  list_sum (map (fun row => count_occ Z.eq_dec row v) m).

(** ** The OpenCV primitives, on CV_8UC1 *)

Module Cv2.

(** [saturate_cast<uchar>]. *)
Definition saturate_u8 (x : Z) : Z := Z.max 0 (Z.min 255 x).

(** A 1 x 1 single-channel array passes OpenCV's [checkScalar]. *)
Definition is_scalar (m : Mat) : bool :=
  Nat.eqb (rows m) 1 && Nat.eqb (cols m) 1.

(** Size check of [arithm_op]: operands of one shape go through; otherwise
    the operation is rejected as "neither array op array nor array op
    scalar", or, when one operand looks like a scalar but is not CV_64F, by
    the assertion that follows. *)
Definition arithm_check (src1 src2 : Mat) : result unit :=
  if shape_eqb src1 src2 then Ok tt
  else if is_scalar src1 || is_scalar src2 then Raise StsAssert
  else Raise StsUnmatchedSizes.

(** [cv2.absdiff(src1, src2)]: dst(I) = saturate(|src1(I) - src2(I)|). *)
Definition absdiff (src1 src2 : Mat) : result Mat :=
  _ <- arithm_check src1 src2 ;;
  Ok (map2 (map2 (fun a b => saturate_u8 (Z.abs (a - b)))) src1 src2).

(** [cv2.bitwise_and(src1, src2)], two arrays of one shape:
    dst(I) = src1(I) & src2(I). *)
Definition bitwise_and (src1 src2 : Mat) : result Mat :=
  if shape_eqb src1 src2
  then Ok (map2 (map2 Z.land) src1 src2)
  else Raise StsUnmatchedSizes.

Inductive ThresholdTypes : Type :=
| THRESH_BINARY
| THRESH_BINARY_INV.

(** [cv2.threshold(src, thresh, maxval, type)] returns the pair
    (thresh, dst); THRESH_BINARY: dst(I) = maxval if src(I) > thresh else 0.
    For an 8-bit source OpenCV floors [thresh], a C double, to an [int]
    before it compares: this is the call for the thresholds that fit an
    [int] (see [int32]); beyond them the conversion is not defined. *)
Definition threshold (src : Mat) (thresh maxval : Z) (type : ThresholdTypes)
  : result (Z * Mat) :=
  let hi := saturate_u8 maxval in
  Ok (thresh,
      map (map (fun x =>
                  match type with
                  | THRESH_BINARY => if x >? thresh then hi else 0
                  | THRESH_BINARY_INV => if x >? thresh then 0 else hi
                  end)) src).

(** BORDER_REPLICATE: an index outside [0, n) is moved to the nearest one
    inside. *)
Definition replicate (n : nat) (i : Z) : Z :=
  Z.max 0 (Z.min (Z.of_nat n - 1) i).

(** Offsets of a [ksize]-wide aperture around its centre. *)
Definition offsets (ksize : nat) : list Z :=
  map (fun k => Z.of_nat k - Z.of_nat (ksize / 2)) (seq 0 ksize).

(** The [ksize] x [ksize] samples around ([r], [c]), row by row. *)
Definition window (src : Mat) (ksize : nat) (r c : Z) : list Z :=
  flat_map
    (fun dr =>
       map (fun dc => px src (replicate (rows src) (r + dr))
                             (replicate (cols src) (c + dc)))
           (offsets ksize))
    (offsets ksize).

Fixpoint insert (x : Z) (l : list Z) : list Z :=
  match l with
  | [] => [x]
  | y :: l' => if x <=? y then x :: l else y :: insert x l'
  end.

Fixpoint sort (l : list Z) : list Z :=
  match l with
  | [] => []
  | x :: l' => insert x (sort l')
  end.

(** Middle element of the sorted samples. *)
Definition median (l : list Z) : Z := nth (length l / 2) (sort l) 0.

(** [cv2.medianBlur(src, ksize)]: each sample becomes the median of the
    [ksize] x [ksize] aperture around it; [ksize] must be odd. *)
Definition medianBlur (src : Mat) (ksize : nat) : result Mat :=
  if Nat.odd ksize
  then Ok (tabulate (rows src) (cols src)
             (fun r c => median (window src ksize r c)))
  else Raise StsAssert.

End Cv2.

(** ** The script *)

(** [getInterframeDiff(frame1, frame2, frame3, threshold)]. *)
Definition getInterframeDiff (frame1 frame2 frame3 : Mat) (threshold : Z)
  : result Mat :=
  diff1 <- Cv2.absdiff frame1 frame2 ;;
  diff2 <- Cv2.absdiff frame2 frame3 ;;
  diff <- Cv2.bitwise_and diff1 diff2 ;;
  (* binarize *)
  th <- Cv2.threshold diff threshold 255 Cv2.THRESH_BINARY ;;
  let img_th := snd th in
  (* remove noises *)
  mask <- Cv2.medianBlur img_th 3 ;;
  Ok mask.

(** The image [img_th] the script hands to the median filter. *)
Definition binarized (frame1 frame2 frame3 : Mat) (threshold : Z)
  : result Mat :=
  diff1 <- Cv2.absdiff frame1 frame2 ;;
  diff2 <- Cv2.absdiff frame2 frame3 ;;
  diff <- Cv2.bitwise_and diff1 diff2 ;;
  th <- Cv2.threshold diff threshold 255 Cv2.THRESH_BINARY ;;
  Ok (snd th).

(** The variant the specification warns against: each difference is
    binarized against the threshold first, and the two binary grids are
    combined afterwards. *)
Definition andAfterThreshold (frame1 frame2 frame3 : Mat) (threshold : Z)
  : result Mat :=
  diff1 <- Cv2.absdiff frame1 frame2 ;;
  diff2 <- Cv2.absdiff frame2 frame3 ;;
  th1 <- Cv2.threshold diff1 threshold 255 Cv2.THRESH_BINARY ;;
  th2 <- Cv2.threshold diff2 threshold 255 Cv2.THRESH_BINARY ;;
  both <- Cv2.bitwise_and (snd th1) (snd th2) ;;
  mask <- Cv2.medianBlur both 3 ;;
  Ok mask.

(** ** The capture loop of the script *)

(** [testInterframeDiff] reads colour images from a camera, keeps the three
    latest as gray frames, and shows the middle frame and the mask until the
    operator presses q.  The camera is its state here: whether it opened,
    and the images it will still deliver; the keyboard is the list of values
    [cv2.waitKey] will return.  What the function does to the outside is the
    list of its events. *)
Module Capture.

Definition Pixel3 : Type := (Z * Z * Z)%type.

(** A three-channel image, row by row. *)
Definition Image3 : Type := list (list Pixel3).

(** [Image h w img]: a non-empty [h] x [w] colour image. *)
Definition Image (h w : nat) (img : Image3) : Prop :=
  (0 < h)%nat /\ (0 < w)%nat /\ length img = h /\
  Forall (fun row => length row = w) img.

Inductive py_error : Type :=
| Cv2Error (e : cv2_error)
| TypeError.          (* 'NoneType' object is not subscriptable *)

Inductive event : Type :=
| PrintType           (* print(type(frame1)) *)
| Sleep               (* time.sleep(0.1) *)
| ShowFrame2 (img : Mat)   (* cv2.imshow("Frame2", img) *)
| ShowMask (img : Mat)     (* cv2.imshow("Mask", img) *)
| PrintRelease        (* print("release") *)
| Release             (* cap.release() *)
| DestroyAllWindows.  (* cv2.destroyAllWindows() *)

Inductive outcome : Type :=
| Returned
| Raised (e : py_error).

(** [img[0:239, :]]: the rows 0 to 238, every column. *)
Definition crop (img : Image3) : Image3 := firstn 239 img.

(** [cap.read()]: the flag and the image, [None] when the camera is not
    open or delivers nothing; and the images left. *)
Definition read (opened : bool) (feed : list Image3)
  : option Image3 * list Image3 :=
  if opened
  then match feed with
       | [] => (None, [])
       | img :: rest => (Some img, rest)
       end
  else (None, feed).

(** [cv2.waitKey(1)]: the key pressed, -1 when there is none. *)
Definition waitKey (keys : list Z) : Z * list Z :=
  match keys with
  | [] => (-1, [])
  | k :: rest => (k, rest)
  end.

(** [cv2.waitKey(1) & 0xFF == ord('q')]. *)
Definition quits (key : Z) : bool := Z.land key 255 =? 113.

Section WithConversion.

(** The gray value [cv2.cvtColor] computes for one colour sample under
    COLOR_RGB2GRAY. *)
Variable rgb2gray : Pixel3 -> Z.

(** [cv2.cvtColor(src, cv2.COLOR_RGB2GRAY)]; an empty source fails the
    assertion [!_src.empty()]. *)
Definition cvtColor (src : Image3) : result Mat :=
  match src with
  | [] => Raise StsAssert
  | [] :: _ => Raise StsAssert
  | _ => Ok (map (map rgb2gray) src)
  end.

(** The gray frame of a camera image. *)
Definition toGray (img : Image3) : Mat := map (map rgb2gray) (crop img).

(** [cv2.cvtColor(cap.read()[1][0:239, :], cv2.COLOR_RGB2GRAY)]. *)
Definition grab (opened : bool) (feed : list Image3)
  : (Mat * list Image3) + py_error :=
  match read opened feed with
  | (None, _) => inr TypeError
  | (Some img, rest) =>
      match cvtColor (crop img) with
      | Ok frame => inl (frame, rest)
      | Raise e => inr (Cv2Error e)
      end
  end.

(** The [while cap.isOpened()] loop.  In its body the camera is open, so
    [cap.read()] delivers the next image of the feed, or [None] when the
    feed is at its end. *)
Fixpoint loop (opened : bool) (frame1 frame2 frame3 : Mat)
         (feed : list Image3) (keys : list Z) : list event * outcome :=
  if negb opened then ([], Returned)
  else
    match getInterframeDiff frame1 frame2 frame3 15 with
    | Raise e => ([Sleep], Raised (Cv2Error e))
    | Ok mask =>
        let shown := [Sleep; ShowFrame2 frame2; ShowMask mask] in
        match feed with
        | [] => (shown, Raised TypeError)
        | img :: feed' =>
            match cvtColor (crop img) with
            | Raise e => (shown, Raised (Cv2Error e))
            | Ok next =>
                let (key, keys') := waitKey keys in
                if quits key then (shown, Returned)
                else
                  let (tr, o) := loop opened frame2 frame3 next feed' keys' in
                  (shown ++ tr, o)
            end
        end
    end.

(** [testInterframeDiff()]. *)
Definition testInterframeDiff (opened : bool) (feed : list Image3)
           (keys : list Z) : list event * outcome :=
  match grab opened feed with
  | inr e => ([], Raised e)
  | inl (frame1, feed1) =>
      match grab opened feed1 with
      | inr e => ([PrintType; Sleep], Raised e)
      | inl (frame2, feed2) =>
          match grab opened feed2 with
          | inr e => ([PrintType; Sleep; Sleep], Raised e)
          | inl (frame3, feed3) =>
              let (tr, o) := loop opened frame1 frame2 frame3 feed3 keys in
              match o with
              | Returned =>
                  ([PrintType; Sleep; Sleep] ++ tr
                     ++ [PrintRelease; Release; DestroyAllWindows],
                   Returned)
              | Raised e => ([PrintType; Sleep; Sleep] ++ tr, Raised e)
              end
          end
      end
  end.

End WithConversion.

(** The masks, and the frames, a run has shown, in order. *)
Definition shownMasks (tr : list event) : list Mat :=
  flat_map (fun e => match e with ShowMask m => [m] | _ => [] end) tr.

Definition shownFrames (tr : list event) : list Mat :=
  flat_map (fun e => match e with ShowFrame2 m => [m] | _ => [] end) tr.

(** The triples of consecutive frames of a sequence. *)
Fixpoint windows (frames : list Mat) : list (Mat * Mat * Mat) :=
  match frames with
  | a :: rest =>
      match rest with
      | b :: c :: _ => (a, b, c) :: windows rest
      | _ => []
      end
  | [] => []
  end.

(** The frame the loop shows for a triple, and the mask it computes. *)
Definition windowFrame (x : Mat * Mat * Mat) : Mat :=
  let '(a, b, c) := x in b.

Definition windowMask (x : Mat * Mat * Mat) : result Mat :=
  let '(a, b, c) := x in getInterframeDiff a b c 15.

(** A gray conversion in the fixed-point style of OpenCV, for examples. *)
Definition gray601 (p : Pixel3) : Z :=
  let '(r, g, b) := p in
  Cv2.saturate_u8 ((4899 * r + 9617 * g + 1868 * b + 8192) / 16384).

Definition dot (v : Z) : Image3 := [[(v, v, v)]].

(** An image of [n] rows and one column, gray [v] throughout. *)
Definition column (n : nat) (v : Z) : Image3 := repeat [(v, v, v)] n.

End Capture.

(** ** The mask as the specification words it *)

Module Spec.

(** A per-pixel combination of two grids of one shape. *)
Definition perPixel (f : Z -> Z -> Z) (F G : Mat) : Mat :=
  tabulate (rows F) (cols F) (fun r c => f (px F r c) (px G r c)).

(** Steps 1 and 2: per-pixel absolute difference. *)
Definition absoluteDifference : Mat -> Mat -> Mat :=
  perPixel (fun a b => Z.abs (a - b)).

(** Step 3: per-pixel bitwise AND. *)
Definition bitwiseAnd : Mat -> Mat -> Mat := perPixel Z.land.

(** Step 4: 255 where the sample strictly exceeds the threshold, else 0. *)
Definition binarize (D : Mat) (threshold : Z) : Mat :=
  tabulate (rows D) (cols D)
    (fun r c => if px D r c >? threshold then 255 else 0).

(** Nearest index inside [0, n). *)
Definition inside (n : nat) (i : Z) : Z :=
  if i <? 0 then 0 else if Z.of_nat n <=? i then Z.of_nat n - 1 else i.

(** The nine samples of the 3 x 3 neighbourhood of ([r], [c]). *)
Definition neighbourhood (M : Mat) (r c : Z) : list Z :=
  let y i := inside (rows M) i in
  let x j := inside (cols M) j in
  [ px M (y (r - 1)) (x (c - 1)); px M (y (r - 1)) (x c); px M (y (r - 1)) (x (c + 1));
    px M (y r) (x (c - 1));       px M (y r) (x c);       px M (y r) (x (c + 1));
    px M (y (r + 1)) (x (c - 1)); px M (y (r + 1)) (x c); px M (y (r + 1)) (x (c + 1)) ].

Definition below (x : Z) (l : list Z) : nat :=
  length (filter (fun y => y <? x) l).

Definition upto (x : Z) (l : list Z) : nat :=
  length (filter (fun y => y <=? x) l).

(** [x] is a median of [l]: fewer than half of the samples (rounded up) lie
    strictly below it, and at least that many lie at or below it. *)
Definition is_median (l : list Z) (x : Z) : bool :=
  (below x l <=? length l / 2)%nat && (length l / 2 <? upto x l)%nat.

Definition medianOf (l : list Z) : Z :=
  match find (is_median l) l with
  | Some x => x
  | None => 0
  end.

(** Step 5: 3 x 3 median filter. *)
Definition medianFilter (M : Mat) : Mat :=
  tabulate (rows M) (cols M) (fun r c => medianOf (neighbourhood M r c)).

(** [computeMask(frameA, frameB, frameC, threshold)], steps 1 to 6. *)
Definition computeMask (frameA frameB frameC : Mat) (threshold : Z) : Mat :=
  let diff1 := absoluteDifference frameA frameB in
  let diff2 := absoluteDifference frameB frameC in
  let diff := bitwiseAnd diff1 diff2 in
  medianFilter (binarize diff threshold).

End Spec.

(** ** Samples of the mask *)

(** Bitwise AND of the two absolute differences at ([r], [c]). *)
Definition andDiff (A B C : Mat) (r c : Z) : Z :=
  Z.land (Z.abs (px A r c - px B r c)) (Z.abs (px B r c - px C r c)).

(** The sample at ([r], [c]) passes the binarization. *)
Definition changed (A B C : Mat) (t : Z) (r c : Z) : bool :=
  andDiff A B C r c >? t.

Definition bw (b : bool) : Z := if b then 255 else 0.

Definition votes (l : list bool) : nat := length (filter (fun b => b) l).

Definition majority (l : list bool) : bool := (length l / 2 <? votes l)%nat.

(** The nine positions of the aperture around ([r], [c]) in an [h] x [w]
    image. *)
Definition aperture (h w : nat) (r c : Z) : list (Z * Z) :=
  let y := Spec.inside h in
  let x := Spec.inside w in
  [ (y (r - 1), x (c - 1)); (y (r - 1), x c); (y (r - 1), x (c + 1));
    (y r, x (c - 1));       (y r, x c);       (y r, x (c + 1));
    (y (r + 1), x (c - 1)); (y (r + 1), x c); (y (r + 1), x (c + 1)) ].

(** Both differences at ([r], [c]) are above the threshold. *)
Definition bothChanged (A B C : Mat) (t r c : Z) : bool :=
  (Z.abs (px A r c - px B r c) >? t) && (Z.abs (px B r c - px C r c) >? t).

(** The AND of the two binarized differences, which the variant hands to the
    median filter. *)
Definition andOfBinarized (A B C : Mat) (t : Z) : Mat :=
  Spec.bitwiseAnd (Spec.binarize (Spec.absoluteDifference A B) t)
                  (Spec.binarize (Spec.absoluteDifference B C) t).

(** The thresholds [cv2.threshold] can floor to a C [int]. *)
Definition int32 (t : Z) : Prop := - 2 ^ 31 <= t < 2 ^ 31.

(** An [h] x [w] frame that OpenCV takes for a scalar operand. *)
Definition unit_shape (h w : nat) : bool := Nat.eqb h 1 && Nat.eqb w 1.

(** The error of an array operation on an [h] x [w] and an [h'] x [w']
    operand of different shapes. *)
Definition sizeError (h w h' w' : nat) : cv2_error :=
  if unit_shape h w || unit_shape h' w' then StsAssert else StsUnmatchedSizes.

(** [rect h w m]: [m] has [h] rows of [w] samples each. *)
Definition rect (h w : nat) (m : Mat) : Prop :=
  length m = h /\ Forall (fun row => length row = w) m.

(** ** Sample frames *)

Definition gray3 : Mat := [[0; 0; 0]; [0; 0; 0]; [0; 0; 0]].
Definition ring3_100 : Mat := [[100; 100; 100]; [100; 0; 100]; [100; 100; 100]].
Definition ring3_200 : Mat := [[200; 200; 200]; [200; 0; 200]; [200; 200; 200]].

(** Five by five. *)
Definition gray5 : Mat := repeat (repeat 50 5%nat) 5%nat.
Definition speck5 : Mat :=
  [[50; 50; 50; 50; 50]; [50; 50; 50; 50; 50]; [50; 50; 200; 50; 50];
   [50; 50; 50; 50; 50]; [50; 50; 50; 50; 50]].

(** A 5 x 5 frame that is [v] on the 3 x 3 block of rows and columns 1 to 3
    and 0 around it. *)
Definition block5 (v : Z) : Mat :=
  [[0; 0; 0; 0; 0]; [0; v; v; v; 0]; [0; v; v; v; 0]; [0; v; v; v; 0];
   [0; 0; 0; 0; 0]].

Definition black5 : Mat := block5 0.

Ltac frame_tac :=
  unfold Frame;
  repeat (first [apply Forall_nil | apply Forall_cons | split]);
  simpl; unfold u8; first [lia | reflexivity].

Ltac block5_cases r c Hr Hc :=
  let Er := fresh in
  let Ec := fresh in
  assert (Er : r = 1 \/ r = 2 \/ r = 3) by lia;
  assert (Ec : c = 1 \/ c = 2 \/ c = 3) by lia;
  destruct Er as [->|[->| ->]]; destruct Ec as [->|[->| ->]].

(** ** Grids as tables of their samples *)

Section Grids.

Lemma map2_table {A B C : Type} (f : A -> B -> C) (d1 : A) (d2 : B)
      (l1 : list A) (l2 : list B) :
  length l1 = length l2 ->
  map2 f l1 l2 =
  map (fun i => f (nth i l1 d1) (nth i l2 d2)) (seq 0 (length l1)).
Proof.
  revert l2; induction l1 as [|a l1 IH]; intros [|b l2] H; simpl in *;
    try discriminate; auto.
  f_equal. rewrite <- seq_shift, map_map. apply IH. congruence.
Qed.

Lemma map_table {A B : Type} (f : A -> B) (d : A) (l : list A) :
  map f l = map (fun i => f (nth i l d)) (seq 0 (length l)).
Proof.
  induction l as [|a l IH]; simpl; auto.
  f_equal. rewrite <- seq_shift, map_map. exact IH.
Qed.

Lemma map_seq_ext {A : Type} (f g : nat -> A) (n : nat) :
  (forall i, (i < n)%nat -> f i = g i) ->
  map f (seq 0 n) = map g (seq 0 n).
Proof.
  intros H. apply map_ext_in. intros i Hi. apply in_seq in Hi. apply H. lia.
Qed.

Lemma nth_map_seq {A : Type} (f : nat -> A) (d : A) (n i : nat) :
  (i < n)%nat -> nth i (map f (seq 0 n)) d = f i.
Proof.
  intros H. rewrite (nth_indep _ d (f 0%nat)) by now rewrite length_map, length_seq.
  rewrite (map_nth f (seq 0 n) 0%nat i), seq_nth; auto.
Qed.

Lemma Frame_rect h w m : Frame h w m -> rect h w m.
Proof.
  intros (_ & _ & Hl & Hr). split; auto.
  eapply Forall_impl; [|exact Hr]. simpl. tauto.
Qed.

Lemma rect_row h w m i : rect h w m -> (i < h)%nat -> length (nth i m []) = w.
Proof.
  intros [Hl Hr] Hi. rewrite Forall_forall in Hr. apply Hr, nth_In. lia.
Qed.

Lemma rect_rows h w m : rect h w m -> rows m = h.
Proof. now intros [Hl _]. Qed.

Lemma rect_cols h w m : rect h w m -> (0 < h)%nat -> cols m = w.
Proof.
  intros [Hl Hr] Hh. destruct m as [|r m]; simpl in *; [lia|].
  now inversion Hr.
Qed.

Lemma tabulate_rect h w f : rect h w (tabulate h w f).
Proof.
  split.
  - unfold tabulate. now rewrite length_map, length_seq.
  - unfold tabulate. apply Forall_forall. intros row Hrow.
    apply in_map_iff in Hrow. destruct Hrow as (r & <- & _).
    now rewrite length_map, length_seq.
Qed.

Lemma tabulate_px h w f r c :
  0 <= r < Z.of_nat h -> 0 <= c < Z.of_nat w ->
  px (tabulate h w f) r c = f r c.
Proof.
  intros Hr Hc. unfold px, tabulate.
  rewrite (nth_map_seq _ [] h) by lia.
  rewrite (nth_map_seq _ 0 w) by lia.
  now rewrite !Z2Nat.id by lia.
Qed.

Lemma tabulate_ext h w f g :
  (forall r c, 0 <= r < Z.of_nat h -> 0 <= c < Z.of_nat w -> f r c = g r c) ->
  tabulate h w f = tabulate h w g.
Proof.
  intros H. unfold tabulate. apply map_seq_ext. intros r Hr.
  apply map_seq_ext. intros c Hc. apply H; lia.
Qed.

Lemma px_of_nat m r c :
  px m (Z.of_nat r) (Z.of_nat c) = nth c (nth r m []) 0.
Proof. unfold px. now rewrite !Nat2Z.id. Qed.

(** A rectangular grid is the table of its samples. *)
Lemma rect_table h w m : rect h w m -> m = tabulate h w (px m).
Proof.
  intros Hm. unfold tabulate. destruct Hm as [Hl Hr].
  rewrite <- (map_id m) at 1. rewrite (map_table _ [] m), Hl.
  apply map_seq_ext. intros r Hr'.
  assert (Hw : length (nth r m []) = w) by (apply (rect_row h w); [split|]; auto).
  rewrite <- (map_id (nth r m [])) at 1. rewrite (map_table _ 0 (nth r m [])), Hw.
  apply map_seq_ext. intros c Hc. now rewrite px_of_nat.
Qed.

Lemma map_grid h w (f : Z -> Z) m :
  rect h w m -> map (map f) m = tabulate h w (fun r c => f (px m r c)).
Proof.
  intros Hm. rewrite (rect_table h w m Hm) at 1. unfold tabulate.
  rewrite map_map. apply map_seq_ext. intros r Hr. now rewrite map_map.
Qed.

Lemma map2_grid h w (f : Z -> Z -> Z) m1 m2 :
  rect h w m1 -> rect h w m2 ->
  map2 (map2 f) m1 m2 = tabulate h w (fun r c => f (px m1 r c) (px m2 r c)).
Proof.
  intros H1 H2. unfold tabulate.
  rewrite (map2_table _ [] [] m1 m2) by (destruct H1, H2; congruence).
  rewrite (proj1 H1). apply map_seq_ext. intros r Hr.
  rewrite (map2_table _ 0 0) by now rewrite (rect_row h w m1), (rect_row h w m2).
  rewrite (rect_row h w m1) by auto.
  apply map_seq_ext. intros c Hc. now rewrite !px_of_nat.
Qed.

Lemma rect_shape_eqb h w m1 m2 :
  rect h w m1 -> rect h w m2 -> shape_eqb m1 m2 = true.
Proof.
  intros H1 H2. unfold shape_eqb.
  rewrite (rect_rows h w m1), (rect_rows h w m2) by auto.
  rewrite Nat.eqb_refl. simpl. apply Nat.eqb_eq.
  destruct (Nat.eq_dec h 0) as [->|Hh].
  - destruct H1 as [H1 _], H2 as [H2 _].
    apply length_zero_iff_nil in H1, H2. now subst.
  - rewrite (rect_cols h w m1), (rect_cols h w m2); auto; lia.
Qed.

Lemma Frame_px h w m r c :
  Frame h w m -> 0 <= r < Z.of_nat h -> 0 <= c < Z.of_nat w -> u8 (px m r c).
Proof.
  intros (_ & _ & Hl & Hall) Hr Hc. unfold px.
  rewrite Forall_forall in Hall.
  destruct (Hall (nth (Z.to_nat r) m [])) as [Hw Hu8].
  { apply nth_In. lia. }
  rewrite Forall_forall in Hu8. apply Hu8, nth_In. lia.
Qed.

End Grids.

Example spec_median_1 : Spec.medianOf [3; 1; 2; 9; 7; 7; 0; 5; 4] = 4.
Proof. reflexivity. Qed.

Example cv2_median_1 : Cv2.median [3; 1; 2; 9; 7; 7; 0; 5; 4] = 4.
Proof. reflexivity. Qed.

Example spec_mask_1 :
  Spec.computeMask [[0;0;0];[0;0;0];[0;0;0]]
                   [[100;100;100];[100;0;100];[100;100;100]]
                   [[200;200;200];[200;0;200];[200;200;200]] 15
  = [[255;255;255];[255;255;255];[255;255;255]].
Proof. reflexivity. Qed.

(** ** The middle of the sorted samples is the median *)

Section Median.

Import Cv2 Spec.

Lemma insert_length x l : length (insert x l) = S (length l).
Proof.
  induction l as [|y l IH]; simpl; auto.
  destruct (x <=? y); simpl; auto.
Qed.

Lemma sort_length l : length (sort l) = length l.
Proof.
  induction l as [|x l IH]; simpl; auto. now rewrite insert_length, IH.
Qed.

Lemma insert_In x y l : In y (insert x l) <-> y = x \/ In y l.
Proof.
  induction l as [|z l IH]; simpl.
  - intuition.
  - destruct (x <=? z); simpl; rewrite ?IH; intuition.
Qed.

Lemma sort_In y l : In y (sort l) <-> In y l.
Proof.
  induction l as [|x l IH]; simpl; [tauto|].
  rewrite insert_In, IH. intuition.
Qed.

Lemma insert_filter_length p x l :
  length (filter p (insert x l)) = length (filter p (x :: l)).
Proof.
  induction l as [|y l IH]; auto.
  simpl insert. destruct (x <=? y); auto.
  simpl in *. destruct (p y), (p x); simpl in *; lia.
Qed.

Lemma sort_filter_length p l :
  length (filter p (sort l)) = length (filter p l).
Proof.
  induction l as [|x l IH]; auto.
  simpl sort. rewrite insert_filter_length. simpl.
  destruct (p x); simpl; lia.
Qed.

Lemma insert_sorted x l :
  StronglySorted Z.le l -> StronglySorted Z.le (insert x l).
Proof.
  induction 1 as [|y l Hs IH Hy]; simpl.
  - constructor; constructor.
  - destruct (x <=? y) eqn:E.
    + apply Z.leb_le in E. constructor.
      * now constructor.
      * constructor; auto. eapply Forall_impl; [|exact Hy]. simpl. lia.
    + apply Z.leb_gt in E. constructor; auto.
      apply Forall_forall. intros z Hz. apply insert_In in Hz.
      destruct Hz as [->|Hz]; [lia|].
      rewrite Forall_forall in Hy. auto.
Qed.

Lemma sort_sorted l : StronglySorted Z.le (sort l).
Proof.
  induction l as [|x l IH]; simpl; [constructor|]. now apply insert_sorted.
Qed.

Lemma below_none x l : Forall (Z.le x) l -> below x l = 0%nat.
Proof.
  unfold below. induction 1 as [|y l Hy _ IH]; simpl; auto.
  destruct (y <? x) eqn:E; auto. apply Z.ltb_lt in E. lia.
Qed.

(** In a sorted list the sample at position [k] has at most [k] samples
    strictly below it and more than [k] at or below it. *)
Lemma sorted_rank s :
  StronglySorted Z.le s ->
  forall k, (k < length s)%nat ->
    (below (nth k s 0%Z) s <= k)%nat /\ (k < upto (nth k s 0%Z) s)%nat.
Proof.
  induction 1 as [|a s Hs IH Ha]; intros k Hk; simpl in Hk; [lia|].
  destruct k as [|k].
  - simpl nth. unfold below, upto. simpl.
    rewrite Z.ltb_irrefl, Z.leb_refl. simpl.
    fold (below a s). rewrite (below_none a s Ha). lia.
  - simpl nth. destruct (IH k ltac:(lia)) as [Hb Hu].
    assert (Hle : a <= nth k s 0).
    { rewrite Forall_forall in Ha. apply Ha, nth_In. lia. }
    unfold below, upto in *. simpl.
    apply Z.leb_le in Hle. rewrite Hle.
    destruct (a <? nth k s 0); simpl; lia.
Qed.

Lemma upto_below x y l : x < y -> (upto x l <= below y l)%nat.
Proof.
  intros Hxy. unfold upto, below. induction l as [|z l IH]; simpl; auto.
  destruct (z <=? x) eqn:E1, (z <? y) eqn:E2; simpl; lia.
Qed.

Lemma is_median_unique l x y :
  is_median l x = true -> is_median l y = true -> x = y.
Proof.
  unfold is_median. rewrite !andb_true_iff, !Nat.leb_le, !Nat.ltb_lt.
  intros [Hbx Hux] [Hby Huy].
  destruct (Z.lt_trichotomy x y) as [H|[H|H]]; auto.
  - pose proof (upto_below x y l H). lia.
  - pose proof (upto_below y x l H). lia.
Qed.

Lemma median_is_median l : l <> [] -> is_median l (median l) = true.
Proof.
  intros Hl. unfold is_median, median.
  assert (Hk : (length l / 2 < length (sort l))%nat).
  { rewrite sort_length. destruct l; [congruence|].
    apply Nat.Div0.div_lt_upper_bound. simpl. lia. }
  destruct (sorted_rank (sort l) (sort_sorted l) _ Hk) as [Hb Hu].
  unfold below, upto in *. rewrite sort_filter_length in Hb, Hu.
  apply andb_true_iff. split; [apply Nat.leb_le|apply Nat.ltb_lt]; lia.
Qed.

Lemma median_In l : l <> [] -> In (median l) l.
Proof.
  intros Hl. apply sort_In. unfold median. apply nth_In.
  rewrite sort_length. destruct l; [congruence|].
  apply Nat.Div0.div_lt_upper_bound. simpl. lia.
Qed.

(** OpenCV's median (middle of the sorted aperture) is the median in the
    rank sense. *)
Lemma medianOf_median l : l <> [] -> medianOf l = median l.
Proof.
  intros Hl. unfold medianOf.
  destruct (find (is_median l) l) as [x|] eqn:E.
  - apply find_some in E. destruct E as [_ Hx].
    eapply is_median_unique; eauto using median_is_median.
  - eapply find_none in E; [|apply (median_In l Hl)].
    now rewrite median_is_median in E.
Qed.

End Median.

(** ** Each OpenCV call against the step it implements *)

Lemma window_3 M r c :
  Cv2.window M 3 r c =
  let y i := Cv2.replicate (rows M) i in
  let x j := Cv2.replicate (cols M) j in
  [ px M (y (r - 1)) (x (c - 1)); px M (y (r - 1)) (x (c + 0)); px M (y (r - 1)) (x (c + 1));
    px M (y (r + 0)) (x (c - 1)); px M (y (r + 0)) (x (c + 0)); px M (y (r + 0)) (x (c + 1));
    px M (y (r + 1)) (x (c - 1)); px M (y (r + 1)) (x (c + 0)); px M (y (r + 1)) (x (c + 1)) ].
Proof. reflexivity. Qed.

Lemma replicate_inside n i : (0 < n)%nat -> Cv2.replicate n i = Spec.inside n i.
Proof.
  intros Hn. unfold Cv2.replicate, Spec.inside.
  destruct (i <? 0) eqn:E1; [lia|]. destruct (Z.of_nat n <=? i) eqn:E2; lia.
Qed.

Lemma inside_range n i : (0 < n)%nat -> 0 <= Spec.inside n i < Z.of_nat n.
Proof.
  intros Hn. unfold Spec.inside.
  destruct (i <? 0) eqn:E1; [lia|]. destruct (Z.of_nat n <=? i) eqn:E2; lia.
Qed.

Section Steps.

Variables h w : nat.
Hypothesis Hh : (0 < h)%nat.
Hypothesis Hw : (0 < w)%nat.

Lemma perPixel_rect f F G : rect h w F -> rect h w (Spec.perPixel f F G).
Proof.
  intros HF. unfold Spec.perPixel.
  rewrite (rect_rows h w F), (rect_cols h w F) by auto. apply tabulate_rect.
Qed.

Lemma perPixel_px f F G r c :
  rect h w F -> 0 <= r < Z.of_nat h -> 0 <= c < Z.of_nat w ->
  px (Spec.perPixel f F G) r c = f (px F r c) (px G r c).
Proof.
  intros HF Hr Hc. unfold Spec.perPixel.
  rewrite (rect_rows h w F), (rect_cols h w F) by auto.
  now rewrite tabulate_px.
Qed.

Lemma binarize_rect D t : rect h w D -> rect h w (Spec.binarize D t).
Proof.
  intros HD. unfold Spec.binarize.
  rewrite (rect_rows h w D), (rect_cols h w D) by auto. apply tabulate_rect.
Qed.

Lemma binarize_px D t r c :
  rect h w D -> 0 <= r < Z.of_nat h -> 0 <= c < Z.of_nat w ->
  px (Spec.binarize D t) r c = if px D r c >? t then 255 else 0.
Proof.
  intros HD Hr Hc. unfold Spec.binarize.
  rewrite (rect_rows h w D), (rect_cols h w D) by auto.
  now rewrite tabulate_px.
Qed.

Lemma medianFilter_rect M : rect h w M -> rect h w (Spec.medianFilter M).
Proof.
  intros HM. unfold Spec.medianFilter.
  rewrite (rect_rows h w M), (rect_cols h w M) by auto. apply tabulate_rect.
Qed.

Lemma medianFilter_px M r c :
  rect h w M -> 0 <= r < Z.of_nat h -> 0 <= c < Z.of_nat w ->
  px (Spec.medianFilter M) r c = Spec.medianOf (Spec.neighbourhood M r c).
Proof.
  intros HM Hr Hc. unfold Spec.medianFilter.
  rewrite (rect_rows h w M), (rect_cols h w M) by auto.
  now rewrite tabulate_px.
Qed.

Lemma absdiff_step F G :
  Frame h w F -> Frame h w G ->
  Cv2.absdiff F G = Ok (Spec.absoluteDifference F G).
Proof.
  intros HF HG.
  pose proof (Frame_rect _ _ _ HF) as RF. pose proof (Frame_rect _ _ _ HG) as RG.
  unfold Cv2.absdiff, Cv2.arithm_check.
  rewrite (rect_shape_eqb h w) by auto. cbn [bind].
  rewrite (map2_grid h w) by auto.
  unfold Spec.absoluteDifference, Spec.perPixel.
  rewrite (rect_rows h w F), (rect_cols h w F) by auto.
  apply f_equal, tabulate_ext. intros r c Hr Hc.
  pose proof (Frame_px h w F r c HF Hr Hc).
  pose proof (Frame_px h w G r c HG Hr Hc).
  unfold Cv2.saturate_u8, u8 in *. lia.
Qed.

Lemma bitwise_and_step D1 D2 :
  rect h w D1 -> rect h w D2 ->
  Cv2.bitwise_and D1 D2 = Ok (Spec.bitwiseAnd D1 D2).
Proof.
  intros H1 H2. unfold Cv2.bitwise_and.
  rewrite (rect_shape_eqb h w) by auto.
  rewrite (map2_grid h w) by auto.
  unfold Spec.bitwiseAnd, Spec.perPixel.
  now rewrite (rect_rows h w D1), (rect_cols h w D1) by auto.
Qed.

Lemma threshold_step D t :
  rect h w D ->
  Cv2.threshold D t 255 Cv2.THRESH_BINARY = Ok (t, Spec.binarize D t).
Proof.
  intros HD. unfold Cv2.threshold. cbv zeta.
  rewrite (map_grid h w) by auto.
  unfold Spec.binarize.
  now rewrite (rect_rows h w D), (rect_cols h w D) by auto.
Qed.

Lemma medianBlur_step M :
  rect h w M -> Cv2.medianBlur M 3 = Ok (Spec.medianFilter M).
Proof.
  intros HM. unfold Cv2.medianBlur, Spec.medianFilter. simpl Nat.odd. cbv iota.
  apply f_equal, tabulate_ext. intros r c Hr Hc.
  rewrite medianOf_median by (unfold Spec.neighbourhood; discriminate).
  f_equal. rewrite window_3. cbv zeta. unfold Spec.neighbourhood.
  rewrite !Z.add_0_r.
  rewrite !replicate_inside;
    rewrite ?(rect_rows h w M), ?(rect_cols h w M); auto.
Qed.

End Steps.

(** ** The mask, sample by sample *)

Section Pointwise.

Variables h w : nat.
Variables A B C : Mat.
Hypothesis HA : Frame h w A.
Hypothesis HB : Frame h w B.
Hypothesis HC : Frame h w C.

Let Hh : (0 < h)%nat := proj1 HA.
Let Hw : (0 < w)%nat := proj1 (proj2 HA).

Lemma absoluteDifference_rect F G :
  Frame h w F -> rect h w (Spec.absoluteDifference F G).
Proof. intros HF. apply perPixel_rect; auto using Frame_rect. Qed.

Lemma diff_rect :
  rect h w (Spec.bitwiseAnd (Spec.absoluteDifference A B)
                            (Spec.absoluteDifference B C)).
Proof. apply perPixel_rect; auto using absoluteDifference_rect. Qed.

Lemma binarize_diff_rect t :
  rect h w (Spec.binarize (Spec.bitwiseAnd (Spec.absoluteDifference A B)
                                           (Spec.absoluteDifference B C)) t).
Proof. apply (binarize_rect h w Hh), diff_rect. Qed.

Lemma binarized_eq t :
  binarized A B C t =
  Ok (Spec.binarize (Spec.bitwiseAnd (Spec.absoluteDifference A B)
                                     (Spec.absoluteDifference B C)) t).
Proof.
  unfold binarized.
  rewrite (absdiff_step h w Hh Hw A B), (absdiff_step h w Hh Hw B C) by auto.
  cbn [bind].
  rewrite (bitwise_and_step h w Hh) by auto using absoluteDifference_rect.
  cbn [bind].
  rewrite (threshold_step h w Hh) by apply diff_rect.
  reflexivity.
Qed.

Lemma getInterframeDiff_eq t :
  getInterframeDiff A B C t = Ok (Spec.computeMask A B C t).
Proof.
  unfold getInterframeDiff.
  rewrite (absdiff_step h w Hh Hw A B), (absdiff_step h w Hh Hw B C) by auto.
  cbn [bind].
  rewrite (bitwise_and_step h w Hh) by auto using absoluteDifference_rect.
  cbn [bind].
  rewrite (threshold_step h w Hh) by apply diff_rect.
  cbn [bind snd].
  rewrite (medianBlur_step h w Hh Hw) by apply binarize_diff_rect.
  reflexivity.
Qed.

Lemma computeMask_rect t : rect h w (Spec.computeMask A B C t).
Proof.
  unfold Spec.computeMask.
  apply (medianFilter_rect h w Hh), binarize_diff_rect.
Qed.

Lemma diff_px r c :
  0 <= r < Z.of_nat h -> 0 <= c < Z.of_nat w ->
  px (Spec.bitwiseAnd (Spec.absoluteDifference A B)
                      (Spec.absoluteDifference B C)) r c = andDiff A B C r c.
Proof.
  intros Hr Hc. unfold Spec.bitwiseAnd, Spec.absoluteDifference, andDiff.
  rewrite (perPixel_px h w) by auto using perPixel_rect, Frame_rect.
  now rewrite !(perPixel_px h w) by auto using Frame_rect.
Qed.

Lemma binarize_diff_px t r c :
  0 <= r < Z.of_nat h -> 0 <= c < Z.of_nat w ->
  px (Spec.binarize (Spec.bitwiseAnd (Spec.absoluteDifference A B)
                                     (Spec.absoluteDifference B C)) t) r c
  = bw (changed A B C t r c).
Proof.
  intros Hr Hc.
  rewrite (binarize_px h w Hh) by (auto; apply diff_rect).
  now rewrite diff_px.
Qed.

Lemma median_majority (l : list bool) :
  length l = 9%nat -> Spec.medianOf (map bw l) = bw (majority l).
Proof.
  intros Hl.
  do 9 (destruct l as [|[|] l]; try discriminate);
    destruct l; try discriminate; reflexivity.
Qed.

(** A sample of the mask is 255 exactly when at least five of the nine
    samples of its aperture passed the binarization. *)
Lemma computeMask_px t r c :
  0 <= r < Z.of_nat h -> 0 <= c < Z.of_nat w ->
  px (Spec.computeMask A B C t) r c =
  bw (majority (map (fun p => changed A B C t (fst p) (snd p))
                    (aperture h w r c))).
Proof.
  intros Hr Hc. unfold Spec.computeMask.
  rewrite (medianFilter_px h w Hh) by (auto; apply binarize_diff_rect).
  rewrite <- median_majority by reflexivity.
  f_equal. unfold Spec.neighbourhood, aperture. cbv zeta.
  rewrite (rect_rows h w _ (binarize_diff_rect t)).
  rewrite (rect_cols h w _ (binarize_diff_rect t) Hh).
  cbn [map fst snd].
  now rewrite !binarize_diff_px by (apply inside_range; auto).
Qed.

End Pointwise.

(** ** Auxiliary facts on grids, counting and bits *)

Lemma Frame_shape h w m : Frame h w m -> shape m = (h, w).
Proof.
  intros Hm. pose proof (Frame_rect _ _ _ Hm) as R. unfold shape.
  rewrite (rect_rows h w m R), (rect_cols h w m R (proj1 Hm)). reflexivity.
Qed.

Lemma shape_eqb_Frame h1 w1 h2 w2 m1 m2 :
  Frame h1 w1 m1 -> Frame h2 w2 m2 ->
  shape_eqb m1 m2 = true <-> (h1, w1) = (h2, w2).
Proof.
  intros H1 H2. apply Frame_shape in H1, H2. unfold shape in *.
  inversion H1; inversion H2; subst. unfold shape_eqb.
  rewrite andb_true_iff, !Nat.eqb_eq. split.
  - intros [-> ->]. reflexivity.
  - intros E. inversion E. auto.
Qed.

Lemma tabulate_all (P : Z -> Prop) h w f :
  (forall r c, 0 <= r < Z.of_nat h -> 0 <= c < Z.of_nat w -> P (f r c)) ->
  Forall (Forall P) (tabulate h w f).
Proof.
  intros H. unfold tabulate. apply Forall_forall. intros row Hrow.
  apply in_map_iff in Hrow. destruct Hrow as (r & <- & Hr). apply in_seq in Hr.
  apply Forall_forall. intros v Hv.
  apply in_map_iff in Hv. destruct Hv as (c & <- & Hc). apply in_seq in Hc.
  apply H; lia.
Qed.

Lemma rect_all (P : Z -> Prop) h w m :
  rect h w m ->
  (forall r c, 0 <= r < Z.of_nat h -> 0 <= c < Z.of_nat w -> P (px m r c)) ->
  Forall (Forall P) m.
Proof.
  intros R H. rewrite (rect_table h w m R). now apply tabulate_all.
Qed.

Lemma map_const_repeat {A B : Type} (v : B) (l : list A) :
  map (fun _ => v) l = repeat v (length l).
Proof. induction l; simpl; congruence. Qed.

Lemma rect_const h w m v :
  rect h w m ->
  (forall r c, 0 <= r < Z.of_nat h -> 0 <= c < Z.of_nat w -> px m r c = v) ->
  m = repeat (repeat v w) h.
Proof.
  intros R H. rewrite (rect_table h w m R).
  rewrite (tabulate_ext h w _ (fun _ _ => v) H). unfold tabulate.
  now rewrite !map_const_repeat, !length_seq.
Qed.

Lemma count_occ_map_le {A : Type} (f g : A -> Z) (v : Z) (l : list A) :
  (forall i, In i l -> f i = v -> g i = v) ->
  (count_occ Z.eq_dec (map f l) v <= count_occ Z.eq_dec (map g l) v)%nat.
Proof.
  induction l as [|a l IH]; intros H; simpl; auto.
  specialize (IH (fun i Hi => H i (or_intror Hi))).
  pose proof (H a (or_introl eq_refl)).
  destruct (Z.eq_dec (f a) v), (Z.eq_dec (g a) v); first [lia | tauto].
Qed.

Lemma list_sum_map_le {A : Type} (f g : A -> nat) (l : list A) :
  (forall i, In i l -> (f i <= g i)%nat) ->
  (list_sum (map f l) <= list_sum (map g l))%nat.
Proof.
  induction l as [|a l IH]; intros H; simpl; auto.
  specialize (IH (fun i Hi => H i (or_intror Hi))).
  pose proof (H a (or_introl eq_refl)). lia.
Qed.

(** Fewer samples equal to [v], when every such sample of the one grid is
    one of the other. *)
Lemma count_px_le h w m1 m2 v :
  rect h w m1 -> rect h w m2 ->
  (forall r c, 0 <= r < Z.of_nat h -> 0 <= c < Z.of_nat w ->
               px m1 r c = v -> px m2 r c = v) ->
  (count_px v m1 <= count_px v m2)%nat.
Proof.
  intros R1 R2 H.
  rewrite (rect_table h w m1 R1), (rect_table h w m2 R2).
  unfold count_px, tabulate. rewrite !map_map.
  apply list_sum_map_le. intros r Hr. apply in_seq in Hr.
  apply count_occ_map_le. intros c Hc. apply in_seq in Hc.
  apply H; lia.
Qed.

Lemma land_u8 a b : u8 a -> u8 b -> u8 (Z.land a b).
Proof.
  unfold u8. intros Ha Hb. split.
  - apply Z.land_nonneg. lia.
  - assert (E : Z.land a b = Z.land a b mod 2 ^ 8).
    { rewrite <- Z.land_ones by lia.
      rewrite <- Z.land_assoc, (Z.land_comm b), Z.land_assoc.
      rewrite (Z.land_ones a 8) by lia.
      rewrite (Z.mod_small a) by (change (2 ^ 8) with 256; lia). reflexivity. }
    pose proof (Z.mod_pos_bound (Z.land a b) (2 ^ 8) ltac:(lia)) as Hm.
    change (2 ^ 8) with 256 in *. lia.
Qed.

Lemma andDiff_u8 h w A B C r c :
  Frame h w A -> Frame h w B -> Frame h w C ->
  0 <= r < Z.of_nat h -> 0 <= c < Z.of_nat w ->
  u8 (andDiff A B C r c).
Proof.
  intros HA HB HC Hr Hc.
  pose proof (Frame_px h w A r c HA Hr Hc).
  pose proof (Frame_px h w B r c HB Hr Hc).
  pose proof (Frame_px h w C r c HC Hr Hc).
  unfold andDiff. apply land_u8; unfold u8 in *; lia.
Qed.

Lemma bw_binary b : bw b = 0 \/ bw b = 255.
Proof. destruct b; simpl; auto. Qed.

Lemma votes_le (l1 l2 : list bool) :
  Forall2 (fun a b => a = true -> b = true) l1 l2 ->
  (votes l1 <= votes l2)%nat.
Proof.
  unfold votes. induction 1 as [|a b l1 l2 Hab _ IH]; simpl; auto.
  destruct a, b; simpl; first [lia | discriminate (Hab eq_refl)].
Qed.

Lemma majority_le (l1 l2 : list bool) :
  Forall2 (fun a b => a = true -> b = true) l1 l2 ->
  majority l1 = true -> majority l2 = true.
Proof.
  intros H. pose proof (votes_le _ _ H) as Hv.
  apply Forall2_length in H. unfold majority. rewrite !Nat.ltb_lt, H. lia.
Qed.

Lemma Forall2_map_same {A : Type} (R : bool -> bool -> Prop) (f g : A -> bool) l :
  (forall p, In p l -> R (f p) (g p)) -> Forall2 R (map f l) (map g l).
Proof.
  induction l as [|a l IH]; intros H; simpl; constructor.
  - apply H. now left.
  - apply IH. intros p Hp. apply H. now right.
Qed.

(** ** The operation [computeMask] *)

(** C1: on three frames of one shape and any threshold, [getInterframeDiff]
    returns exactly the composition the specification describes: the two
    per-pixel absolute differences, their per-pixel bitwise AND, the
    binarization to 255 where the AND strictly exceeds the threshold and 0
    elsewhere, and the 3 x 3 median filter of that grid. *)
Theorem getInterframeDiff_is_computeMask (h w : nat) (A B C : Mat) (t : Z) :
  Frame h w A -> Frame h w B -> Frame h w C ->
  getInterframeDiff A B C t = Ok (Spec.computeMask A B C t).
Proof. intros HA HB HC. now apply (getInterframeDiff_eq h w). Qed.

Lemma getInterframeDiff_is_computeMask_witness :
  getInterframeDiff gray3 ring3_100 ring3_200 15
  = Ok (Spec.computeMask gray3 ring3_100 ring3_200 15).
Proof.
  apply (getInterframeDiff_is_computeMask 3 3); frame_tac.
Defined.

(** C2: the mask returned for three [h] x [w] frames is an [h] x [w] grid
    and each of its samples is 0 or 255. *)
Theorem mask_shape_and_binary (h w : nat) (A B C : Mat) (t : Z) :
  Frame h w A -> Frame h w B -> Frame h w C ->
  exists mask,
    getInterframeDiff A B C t = Ok mask /\
    shape mask = (h, w) /\
    Forall (fun row => length row = w) mask /\
    Forall (Forall (fun v => v = 0 \/ v = 255)) mask.
Proof.
  intros HA HB HC. exists (Spec.computeMask A B C t).
  pose proof (computeMask_rect h w A B C HA t) as R.
  split; [now apply (getInterframeDiff_eq h w)|]. split; [|split].
  - unfold shape. rewrite (rect_rows h w _ R), (rect_cols h w _ R (proj1 HA)).
    reflexivity.
  - apply R.
  - apply (rect_all _ h w _ R). intros r c Hr Hc.
    rewrite (computeMask_px h w A B C HA HB) by auto. apply bw_binary.
Qed.

Lemma mask_shape_and_binary_witness :
  exists mask,
    getInterframeDiff gray3 ring3_100 ring3_200 15 = Ok mask /\
    shape mask = (3%nat, 3%nat) /\
    Forall (fun row => length row = 3%nat) mask /\
    Forall (Forall (fun v => v = 0 \/ v = 255)) mask.
Proof.
  apply (mask_shape_and_binary 3 3); frame_tac.
Defined.

Lemma Frame_is_scalar h w m : Frame h w m -> Cv2.is_scalar m = unit_shape h w.
Proof.
  intros Hm. apply Frame_shape in Hm. unfold shape in Hm.
  inversion Hm as [[Hr Hc]]. unfold Cv2.is_scalar, unit_shape.
  now rewrite Hr, Hc.
Qed.

Lemma arithm_check_mismatch h w h' w' m m' :
  Frame h w m -> Frame h' w' m' -> (h, w) <> (h', w') ->
  Cv2.arithm_check m m' = Raise (sizeError h w h' w').
Proof.
  intros Hm Hm' Hne. unfold Cv2.arithm_check, sizeError.
  destruct (shape_eqb m m') eqn:E.
  - apply (shape_eqb_Frame h w h' w') in E; auto. contradiction.
  - rewrite (Frame_is_scalar h w m), (Frame_is_scalar h' w' m') by auto.
    destruct (unit_shape h w || unit_shape h' w'); reflexivity.
Qed.

(** C3, refuted: a 1 x 1 frame against 2 x 2 frames is rejected, but by a
    failed assertion, not by the error that reports unmatched sizes. *)
Lemma mismatch_with_1x1_fails_assertion :
  Frame 1 1 [[5]] /\ Frame 2 2 [[1; 2]; [3; 4]] /\
  (1%nat, 1%nat) <> (2%nat, 2%nat) /\
  getInterframeDiff [[5]] [[1; 2]; [3; 4]] [[1; 2]; [3; 4]] 15
  = Raise StsAssert /\
  StsAssert <> StsUnmatchedSizes.
Proof.
  split; [frame_tac|]. split; [frame_tac|]. split; [discriminate|].
  split; [reflexivity|discriminate].
Qed.

(** C3, as the code has it: when the three frames do not all have one
    shape, the call raises and returns no mask.  The error is that of the
    first [absdiff] whose two frames differ in shape: unmatched sizes, or a
    failed assertion when one of those two frames is 1 x 1. *)
Theorem mismatched_frames_error
        (h1 w1 h2 w2 h3 w3 : nat) (A B C : Mat) (t : Z) :
  Frame h1 w1 A -> Frame h2 w2 B -> Frame h3 w3 C ->
  ~ ((h1, w1) = (h2, w2) /\ (h2, w2) = (h3, w3)) ->
  ((h1, w1) <> (h2, w2) ->
   getInterframeDiff A B C t = Raise (sizeError h1 w1 h2 w2)) /\
  ((h1, w1) = (h2, w2) ->
   getInterframeDiff A B C t = Raise (sizeError h2 w2 h3 w3)) /\
  (unit_shape h1 w1 = false -> unit_shape h2 w2 = false ->
   unit_shape h3 w3 = false ->
   getInterframeDiff A B C t = Raise StsUnmatchedSizes).
Proof.
  intros HA HB HC Hne.
  assert (P1 : (h1, w1) <> (h2, w2) ->
               getInterframeDiff A B C t = Raise (sizeError h1 w1 h2 w2)).
  { intros Hab. unfold getInterframeDiff, Cv2.absdiff.
    now rewrite (arithm_check_mismatch h1 w1 h2 w2). }
  assert (P2 : (h1, w1) = (h2, w2) ->
               getInterframeDiff A B C t = Raise (sizeError h2 w2 h3 w3)).
  { intros Hab. assert (Hbc : (h2, w2) <> (h3, w3)) by tauto.
    inversion Hab; subst h2 w2.
    unfold getInterframeDiff.
    rewrite (absdiff_step h1 w1 (proj1 HA) (proj1 (proj2 HA))) by auto.
    cbn [bind]. unfold Cv2.absdiff.
    now rewrite (arithm_check_mismatch h1 w1 h3 w3). }
  split; [exact P1|]. split; [exact P2|].
  intros U1 U2 U3.
  assert (Dec : (h1, w1) = (h2, w2) \/ (h1, w1) <> (h2, w2)).
  { destruct (Nat.eq_dec h1 h2) as [->|]; [|right; congruence].
    destruct (Nat.eq_dec w1 w2) as [->|]; [left; reflexivity|right; congruence]. }
  destruct Dec as [E|E].
  - rewrite (P2 E). unfold sizeError. now rewrite U2, U3.
  - rewrite (P1 E). unfold sizeError. now rewrite U1, U2.
Qed.

Lemma mismatched_frames_error_witness :
  ((3%nat, 3%nat) <> (1%nat, 2%nat) ->
   getInterframeDiff gray3 [[1; 2]] ring3_200 15 = Raise (sizeError 3 3 1 2)) /\
  ((3%nat, 3%nat) = (1%nat, 2%nat) ->
   getInterframeDiff gray3 [[1; 2]] ring3_200 15 = Raise (sizeError 1 2 3 3)) /\
  (unit_shape 3 3 = false -> unit_shape 1 2 = false ->
   unit_shape 3 3 = false ->
   getInterframeDiff gray3 [[1; 2]] ring3_200 15 = Raise StsUnmatchedSizes).
Proof.
  apply (mismatched_frames_error 3 3 1 2 3 3); try frame_tac.
  intros [E _]. discriminate E.
Defined.

(** The scenario of the specification: a 100 x 100 frame against a 50 x 50
    one. *)
Example mismatch_100_50 :
  let A := repeat (repeat 0 100%nat) 100%nat in
  let B := repeat (repeat 0 50%nat) 50%nat in
  getInterframeDiff A B A 15 = Raise StsUnmatchedSizes /\
  getInterframeDiff A A B 15 = Raise StsUnmatchedSizes.
Proof. split; vm_compute; reflexivity. Qed.

(** C4, refuted: on three 3 x 3 frames a threshold of 300 is accepted and
    a mask (all zero) comes back. *)
Lemma threshold_300_accepted :
  Frame 3 3 gray3 /\ Frame 3 3 ring3_100 /\ Frame 3 3 ring3_200 /\
  ~ (0 <= 300 <= 255) /\
  getInterframeDiff gray3 ring3_100 ring3_200 300
  = Ok [[0; 0; 0]; [0; 0; 0]; [0; 0; 0]].
Proof.
  split; [frame_tac|]. split; [frame_tac|]. split; [frame_tac|].
  split; [lia|reflexivity].
Qed.

Lemma changed_out_of_range h w A B C t r c :
  Frame h w A -> Frame h w B -> Frame h w C ->
  ~ (0 <= t <= 255) ->
  0 <= r < Z.of_nat h -> 0 <= c < Z.of_nat w ->
  changed A B C t r c = (t <? 0).
Proof.
  intros HA HB HC Ht Hr Hc.
  pose proof (andDiff_u8 h w A B C r c HA HB HC Hr Hc) as Hu.
  unfold changed, u8 in *.
  destruct (t <? 0) eqn:E; lia.
Qed.

(** C4, as the code has it: a threshold outside [0, 255], within the reach
    of a C [int], is not rejected.  The call returns a mask of the frames'
    shape, every sample 255 when the threshold is negative and every sample
    0 when it is above 255. *)
Theorem threshold_out_of_range_mask (h w : nat) (A B C : Mat) (t : Z) :
  Frame h w A -> Frame h w B -> Frame h w C ->
  int32 t ->
  ~ (0 <= t <= 255) ->
  getInterframeDiff A B C t =
  Ok (repeat (repeat (if t <? 0 then 255 else 0) w) h).
Proof.
  intros HA HB HC _ Ht. rewrite (getInterframeDiff_eq h w) by auto.
  apply f_equal, rect_const; [now apply computeMask_rect|].
  intros r c Hr Hc. rewrite (computeMask_px h w A B C HA HB) by auto.
  unfold aperture. cbv zeta. cbn [map fst snd].
  rewrite !(changed_out_of_range h w A B C t)
    by (auto; apply inside_range; apply HA).
  destruct (t <? 0); reflexivity.
Qed.

Lemma threshold_out_of_range_mask_witness :
  getInterframeDiff gray3 ring3_100 ring3_200 (-1) =
  Ok (repeat (repeat 255 3%nat) 3%nat).
Proof.
  apply (threshold_out_of_range_mask 3 3 gray3 ring3_100 ring3_200 (-1));
    first [frame_tac | unfold int32; lia | lia].
Defined.

Example threshold_above_range_mask :
  getInterframeDiff gray3 ring3_100 ring3_200 256 =
  Ok (repeat (repeat 0 3%nat) 3%nat).
Proof. reflexivity. Qed.

Lemma changed_equal_frames F t r c : 0 <= t -> changed F F F t r c = false.
Proof.
  intros Ht. unfold changed, andDiff. rewrite Z.sub_diag. simpl. lia.
Qed.

(** C5: three equal frames and a strictly positive threshold give the
    all-zero mask. *)
Theorem equal_frames_zero_mask (h w : nat) (F : Mat) (t : Z) :
  Frame h w F -> 0 < t ->
  getInterframeDiff F F F t = Ok (repeat (repeat 0 w) h).
Proof.
  intros HF Ht. rewrite (getInterframeDiff_eq h w) by auto.
  apply f_equal, rect_const; [now apply computeMask_rect|].
  intros r c Hr Hc. rewrite (computeMask_px h w F F F HF HF) by auto.
  unfold aperture. cbv zeta. cbn [map fst snd].
  rewrite !changed_equal_frames by lia. reflexivity.
Qed.

Lemma equal_frames_zero_mask_witness :
  getInterframeDiff ring3_100 ring3_100 ring3_100 15
  = Ok (repeat (repeat 0 3%nat) 3%nat).
Proof.
  apply (equal_frames_zero_mask 3 3 ring3_100 15); first [frame_tac | lia].
Defined.

Lemma bw_255 b : bw b = 255 <-> b = true.
Proof. destruct b; simpl; split; intros; congruence. Qed.

(** C6: for fixed frames, a larger threshold never yields more samples
    equal to 255 in the mask. *)
Theorem threshold_monotone (h w : nat) (A B C : Mat) (t1 t2 : Z) :
  Frame h w A -> Frame h w B -> Frame h w C ->
  t1 <= t2 ->
  exists mask1 mask2,
    getInterframeDiff A B C t1 = Ok mask1 /\
    getInterframeDiff A B C t2 = Ok mask2 /\
    (count_px 255 mask2 <= count_px 255 mask1)%nat.
Proof.
  intros HA HB HC Ht.
  exists (Spec.computeMask A B C t1), (Spec.computeMask A B C t2).
  split; [now apply (getInterframeDiff_eq h w)|].
  split; [now apply (getInterframeDiff_eq h w)|].
  apply (count_px_le h w); try now apply computeMask_rect.
  intros r c Hr Hc.
  rewrite !(computeMask_px h w A B C HA HB) by auto.
  rewrite !bw_255. apply majority_le, Forall2_map_same.
  intros p _. unfold changed. lia.
Qed.

Lemma threshold_monotone_witness :
  exists mask1 mask2,
    getInterframeDiff gray3 ring3_100 ring3_200 15 = Ok mask1 /\
    getInterframeDiff gray3 ring3_100 ring3_200 200 = Ok mask2 /\
    (count_px 255 mask2 <= count_px 255 mask1)%nat.
Proof.
  apply (threshold_monotone 3 3); first [frame_tac | lia].
Defined.

Example threshold_monotone_counts :
  option_map (count_px 255)
    (match getInterframeDiff gray3 ring3_100 ring3_200 15 with
     | Ok m => Some m | Raise _ => None end) = Some 9%nat /\
  option_map (count_px 255)
    (match getInterframeDiff gray3 ring3_100 ring3_200 200 with
     | Ok m => Some m | Raise _ => None end) = Some 0%nat.
Proof. split; reflexivity. Qed.

(** ** Scenarios *)

(** An interior index is met by the clamped index only when it is met by
    the index itself. *)
Lemma inside_eqb_interior n i k :
  1 <= k < Z.of_nat n - 1 -> (Spec.inside n i =? k) = (i =? k).
Proof.
  intros Hk. unfold Spec.inside.
  destruct (i <? 0) eqn:E1; [lia|]. destruct (Z.of_nat n <=? i) eqn:E2; lia.
Qed.

Section IsolatedPixel.

Variables h w : nat.
Variables A B C : Mat.
Variables g v r0 c0 t : Z.
Hypothesis HA : Frame h w A.
Hypothesis HB : Frame h w B.
Hypothesis HC : Frame h w C.
(* A and C are uniformly [g]; B is [g] except for [v] at ([r0], [c0]) *)
Hypothesis Huniform :
  forall r c, 0 <= r < Z.of_nat h -> 0 <= c < Z.of_nat w ->
    px A r c = g /\ px C r c = g /\
    px B r c = if (r =? r0) && (c =? c0) then v else g.
Hypothesis Hr0 : 1 <= r0 < Z.of_nat h - 1.
Hypothesis Hc0 : 1 <= c0 < Z.of_nat w - 1.
Hypothesis Ht : 0 <= t < Z.abs (v - g).

Lemma speck_andDiff : andDiff A B C r0 c0 = Z.abs (v - g).
Proof using All.
  unfold andDiff. destruct (Huniform r0 c0) as (-> & -> & ->); try lia.
  rewrite !Z.eqb_refl. simpl.
  replace (Z.abs (g - v)) with (Z.abs (v - g)) by lia. apply Z.land_diag.
Qed.

Lemma speck_changed r c :
  0 <= r < Z.of_nat h -> 0 <= c < Z.of_nat w ->
  changed A B C t r c = (r =? r0) && (c =? c0).
Proof using All.
  intros Hr Hc. unfold changed, andDiff.
  destruct (Huniform r c Hr Hc) as (-> & -> & ->).
  destruct ((r =? r0) && (c =? c0)) eqn:E.
  - replace (Z.abs (g - v)) with (Z.abs (v - g)) by lia.
    rewrite Z.land_diag. lia.
  - rewrite Z.sub_diag. simpl. lia.
Qed.

Lemma speck_mask_px r c :
  0 <= r < Z.of_nat h -> 0 <= c < Z.of_nat w ->
  px (Spec.computeMask A B C t) r c = 0.
Proof using All.
  intros Hr Hc. rewrite (computeMask_px h w A B C HA HB) by auto.
  unfold aperture. cbv zeta. cbn [map fst snd].
  assert (Hh : (0 < h)%nat) by apply HA.
  assert (Hw : (0 < w)%nat) by apply HA.
  rewrite !speck_changed by (apply inside_range; auto).
  rewrite !(inside_eqb_interior h) by auto.
  rewrite !(inside_eqb_interior w) by auto.
  destruct (r - 1 =? r0) eqn:Y0; destruct (r =? r0) eqn:Y1;
    destruct (r + 1 =? r0) eqn:Y2; try (exfalso; lia);
    destruct (c - 1 =? c0) eqn:X0; destruct (c =? c0) eqn:X1;
    destruct (c + 1 =? c0) eqn:X2; try (exfalso; lia); reflexivity.
Qed.

End IsolatedPixel.

(** C7: three uniform gray frames, but for one interior sample that is
    different in the middle frame only, by more than the threshold: the
    sample survives both differences and their AND, is 255 after the
    binarization, and the median filter removes it; the mask is all zero. *)
Theorem isolated_pixel_removed
        (h w : nat) (A B C : Mat) (g v r0 c0 t : Z) :
  Frame h w A -> Frame h w B -> Frame h w C ->
  (forall r c, 0 <= r < Z.of_nat h -> 0 <= c < Z.of_nat w ->
     px A r c = g /\ px C r c = g /\
     px B r c = if (r =? r0) && (c =? c0) then v else g) ->
  1 <= r0 < Z.of_nat h - 1 -> 1 <= c0 < Z.of_nat w - 1 ->
  0 <= t < Z.abs (v - g) ->
  andDiff A B C r0 c0 = Z.abs (v - g) /\
  (exists img_th, binarized A B C t = Ok img_th /\ px img_th r0 c0 = 255) /\
  getInterframeDiff A B C t = Ok (repeat (repeat 0 w) h).
Proof.
  intros HA HB HC Hu Hr0 Hc0 Ht. split; [|split].
  - now apply (speck_andDiff h w A B C g v r0 c0 t).
  - eexists. split; [now apply (binarized_eq h w)|].
    rewrite (binarize_diff_px h w A B C HA HB) by lia.
    rewrite (speck_changed h w A B C g v r0 c0 t) by (auto; lia).
    now rewrite !Z.eqb_refl.
  - rewrite (getInterframeDiff_eq h w) by auto.
    apply f_equal, rect_const; [now apply computeMask_rect|].
    intros r c Hr Hc. now apply (speck_mask_px h w A B C g v r0 c0 t).
Qed.

Lemma isolated_pixel_removed_witness :
  andDiff gray5 speck5 gray5 2 2 = Z.abs (200 - 50) /\
  (exists img_th,
      binarized gray5 speck5 gray5 15 = Ok img_th /\ px img_th 2 2 = 255) /\
  getInterframeDiff gray5 speck5 gray5 15 = Ok (repeat (repeat 0 5%nat) 5%nat).
Proof.
  apply (isolated_pixel_removed 5 5 gray5 speck5 gray5 50 200 2 2 15);
    try frame_tac; try lia.
  intros r c Hr Hc.
  assert (Er : r = 0 \/ r = 1 \/ r = 2 \/ r = 3 \/ r = 4) by lia.
  assert (Ec : c = 0 \/ c = 1 \/ c = 2 \/ c = 3 \/ c = 4) by lia.
  destruct Er as [->|[->|[->|[->| ->]]]];
    destruct Ec as [->|[->|[->|[->| ->]]]];
    repeat split; reflexivity.
Defined.

Example block5_100_200 :
  getInterframeDiff black5 (block5 100) (block5 200) 15 =
  Ok [[0; 0; 0; 0; 0]; [0; 0; 255; 0; 0]; [0; 255; 255; 255; 0];
      [0; 0; 255; 0; 0]; [0; 0; 0; 0; 0]].
Proof. reflexivity. Qed.

Example block5_16_48 :
  getInterframeDiff black5 (block5 16) (block5 48) 15 =
  Ok (repeat (repeat 0 5%nat) 5%nat).
Proof. reflexivity. Qed.

(** C8, refuted twice over.  A 3 x 3 block that goes 0, 100, 200 differs by
    100 > 15 in both transitions, yet its corner sample (1, 1) is 0 in the
    mask: the median filter erodes corners.  A block that goes 0, 16, 48
    differs by 16 and by 32, both above 15, yet its centre (2, 2) is 0 in
    the mask: the two differences share no bit. *)
Lemma block_not_kept :
  (Frame 5 5 black5 /\ Frame 5 5 (block5 100) /\ Frame 5 5 (block5 200) /\
   (forall r c, 1 <= r <= 3 -> 1 <= c <= 3 ->
      Z.abs (px black5 r c - px (block5 100) r c) > 15 /\
      Z.abs (px (block5 100) r c - px (block5 200) r c) > 15) /\
   exists mask,
     getInterframeDiff black5 (block5 100) (block5 200) 15 = Ok mask /\
     px mask 1 1 = 0)
  /\
  (Frame 5 5 (block5 16) /\ Frame 5 5 (block5 48) /\
   (forall r c, 1 <= r <= 3 -> 1 <= c <= 3 ->
      Z.abs (px black5 r c - px (block5 16) r c) > 15 /\
      Z.abs (px (block5 16) r c - px (block5 48) r c) > 15) /\
   exists mask,
     getInterframeDiff black5 (block5 16) (block5 48) 15 = Ok mask /\
     px mask 2 2 = 0).
Proof.
  split.
  - split; [frame_tac|]. split; [frame_tac|]. split; [frame_tac|]. split.
    + intros r c Hr Hc. block5_cases r c Hr Hc; split; reflexivity.
    + eexists. split; reflexivity.
  - split; [frame_tac|]. split; [frame_tac|]. split.
    + intros r c Hr Hc. block5_cases r c Hr Hc; split; reflexivity.
    + eexists. split; reflexivity.
Qed.

Lemma inside_id n i : 0 <= i < Z.of_nat n -> Spec.inside n i = i.
Proof.
  intros Hi. unfold Spec.inside.
  destruct (i <? 0) eqn:E1; [lia|]. destruct (Z.of_nat n <=? i) eqn:E2; lia.
Qed.

Section Block.

Variables h w : nat.
Variables A B C : Mat.
Variables t r1 r2 c1 c2 : Z.
Hypothesis HA : Frame h w A.
Hypothesis HB : Frame h w B.
Hypothesis HC : Frame h w C.
(* the block lies in the frame and is at least 3 x 3 *)
Hypothesis Hrows : 0 <= r1 /\ r1 + 2 <= r2 /\ r2 < Z.of_nat h.
Hypothesis Hcols : 0 <= c1 /\ c1 + 2 <= c2 /\ c2 < Z.of_nat w.
(* on the block the AND of the two differences exceeds the threshold *)
Hypothesis Hblock :
  forall r c, r1 <= r <= r2 -> c1 <= c <= c2 -> andDiff A B C r c > t.

Lemma block_changed y x :
  r1 <= y <= r2 -> c1 <= x <= c2 -> changed A B C t y x = true.
Proof using All.
  intros Hy Hx. pose proof (Hblock y x Hy Hx). unfold changed. lia.
Qed.

Lemma block_mask_px r c :
  r1 <= r <= r2 -> c1 <= c <= c2 ->
  ~ ((r = r1 \/ r = r2) /\ (c = c1 \/ c = c2)) ->
  px (Spec.computeMask A B C t) r c = 255.
Proof using All.
  intros Hr Hc Hnc. rewrite (computeMask_px h w A B C HA HB) by lia.
  unfold aperture. cbv zeta. cbn [map fst snd].
  assert (Hh : (0 < h)%nat) by apply HA.
  assert (Hw : (0 < w)%nat) by apply HA.
  assert (Y0' : r1 < r -> Spec.inside h (r - 1) = r - 1)
    by (intros; apply inside_id; lia).
  assert (Y2' : r < r2 -> Spec.inside h (r + 1) = r + 1)
    by (intros; apply inside_id; lia).
  assert (X0' : c1 < c -> Spec.inside w (c - 1) = c - 1)
    by (intros; apply inside_id; lia).
  assert (X2' : c < c2 -> Spec.inside w (c + 1) = c + 1)
    by (intros; apply inside_id; lia).
  rewrite (inside_id h r), (inside_id w c) by lia.
  generalize dependent (Spec.inside h (r - 1)).
  generalize dependent (Spec.inside h (r + 1)).
  generalize dependent (Spec.inside w (c - 1)).
  generalize dependent (Spec.inside w (c + 1)).
  intros x2 X2' x0 X0' y2 Y2' y0 Y0'.
  destruct (Z_lt_dec r1 r), (Z_lt_dec r r2), (Z_lt_dec c1 c), (Z_lt_dec c c2);
    try (exfalso; lia);
    repeat match goal with
           | |- context [changed A B C t ?y ?x] =>
               first [ rewrite (block_changed y x) by lia
                     | destruct (changed A B C t y x) ]
           end;
    reflexivity.
Qed.

End Block.

(** C8, as the code has it: where a block of at least 3 x 3 samples has the
    bitwise AND of its two absolute differences above the threshold, every
    sample of the block other than its four corners is 255 in the mask. *)
Theorem block_without_corners_kept
        (h w : nat) (A B C : Mat) (t r1 r2 c1 c2 : Z) :
  Frame h w A -> Frame h w B -> Frame h w C ->
  0 <= r1 /\ r1 + 2 <= r2 /\ r2 < Z.of_nat h ->
  0 <= c1 /\ c1 + 2 <= c2 /\ c2 < Z.of_nat w ->
  (forall r c, r1 <= r <= r2 -> c1 <= c <= c2 -> andDiff A B C r c > t) ->
  exists mask,
    getInterframeDiff A B C t = Ok mask /\
    forall r c, r1 <= r <= r2 -> c1 <= c <= c2 ->
      ~ ((r = r1 \/ r = r2) /\ (c = c1 \/ c = c2)) ->
      px mask r c = 255.
Proof.
  intros HA HB HC Hrows Hcols Hblock.
  exists (Spec.computeMask A B C t).
  split; [now apply (getInterframeDiff_eq h w)|].
  intros r c Hr Hc Hnc.
  now apply (block_mask_px h w A B C t r1 r2 c1 c2).
Qed.

Lemma block_without_corners_kept_witness :
  exists mask,
    getInterframeDiff black5 (block5 100) (block5 200) 15 = Ok mask /\
    forall r c, 1 <= r <= 3 -> 1 <= c <= 3 ->
      ~ ((r = 1 \/ r = 3) /\ (c = 1 \/ c = 3)) ->
      px mask r c = 255.
Proof.
  apply (block_without_corners_kept 5 5 black5 (block5 100) (block5 200)
           15 1 3 1 3); try frame_tac; try lia.
  intros r c Hr Hc. block5_cases r c Hr Hc; reflexivity.
Defined.

(** ** The order of AND and threshold *)

(** C9: AND before the threshold is not AND after the threshold.  On the
    one-sample frames 0, 16, 48 with threshold 15 the differences are 16 and
    32: their AND is 0 and the script's mask is 0, while both differences
    pass the threshold and the variant's mask is 255. *)
Theorem and_before_threshold_differs :
  exists (h w : nat) (A B C : Mat) (t : Z) (mask mask' : Mat),
    Frame h w A /\ Frame h w B /\ Frame h w C /\ 0 <= t <= 255 /\
    getInterframeDiff A B C t = Ok mask /\
    andAfterThreshold A B C t = Ok mask' /\
    mask <> mask'.
Proof.
  exists 1%nat, 1%nat, [[0]], [[16]], [[48]], 15, [[0]], [[255]].
  split; [frame_tac|]. split; [frame_tac|]. split; [frame_tac|].
  split; [lia|]. split; [reflexivity|]. split; [reflexivity|].
  discriminate.
Qed.

(** ** Promotion by the median filter *)

(** C10: a sample can be 255 in the mask although the AND of its two
    differences does not exceed the threshold.  In the 3 x 3 frames whose
    rim goes 0, 100, 200 while the centre stays 0, the centre is 0 after the
    binarization and 255 in the mask, its eight neighbours being 255. *)
Theorem median_promotes_unchanged_pixel :
  exists (h w : nat) (A B C : Mat) (t r c : Z) (img_th mask : Mat),
    Frame h w A /\ Frame h w B /\ Frame h w C /\ 0 <= t <= 255 /\
    0 <= r < Z.of_nat h /\ 0 <= c < Z.of_nat w /\
    andDiff A B C r c <= t /\
    binarized A B C t = Ok img_th /\ px img_th r c = 0 /\
    getInterframeDiff A B C t = Ok mask /\ px mask r c = 255.
Proof.
  exists 3%nat, 3%nat, gray3, ring3_100, ring3_200, 15, 1, 1.
  eexists. eexists.
  split; [frame_tac|]. split; [frame_tac|]. split; [frame_tac|].
  split; [lia|]. split; [lia|]. split; [lia|].
  split; [vm_compute; discriminate|].
  split; [reflexivity|]. split; [reflexivity|].
  split; reflexivity.
Qed.

(** ** Further properties of [getInterframeDiff] *)

Lemma rect_ext h w m1 m2 :
  rect h w m1 -> rect h w m2 ->
  (forall r c, 0 <= r < Z.of_nat h -> 0 <= c < Z.of_nat w ->
               px m1 r c = px m2 r c) ->
  m1 = m2.
Proof.
  intros R1 R2 H. rewrite (rect_table h w m1 R1), (rect_table h w m2 R2).
  now apply tabulate_ext.
Qed.

Lemma aperture_in_frame h w r c p :
  (0 < h)%nat -> (0 < w)%nat -> In p (aperture h w r c) ->
  0 <= fst p < Z.of_nat h /\ 0 <= snd p < Z.of_nat w.
Proof.
  intros Hh Hw Hp. unfold aperture in Hp. cbv zeta in Hp. simpl in Hp.
  repeat (destruct Hp as [<-|Hp]; [simpl; split; apply inside_range; auto|]).
  destruct Hp.
Qed.

(** Two triples of frames whose samples pass the binarization at the same
    places have the same mask. *)
Lemma computeMask_ext h w A B C A' B' C' t t' :
  Frame h w A -> Frame h w B -> Frame h w C ->
  Frame h w A' -> Frame h w B' -> Frame h w C' ->
  (forall r c, 0 <= r < Z.of_nat h -> 0 <= c < Z.of_nat w ->
               changed A B C t r c = changed A' B' C' t' r c) ->
  Spec.computeMask A B C t = Spec.computeMask A' B' C' t'.
Proof.
  intros HA HB HC HA' HB' HC' H.
  apply (rect_ext h w); try now apply computeMask_rect.
  intros r c Hr Hc.
  rewrite (computeMask_px h w A B C HA HB), (computeMask_px h w A' B' C' HA' HB')
    by auto.
  do 2 f_equal. apply map_ext_in. intros p Hp.
  apply (aperture_in_frame h w r c) in Hp; try apply HA. now apply H.
Qed.

Lemma land_le_l a b : 0 <= a -> 0 <= b -> Z.land a b <= a.
Proof.
  intros Ha Hb.
  pose proof (Z.add_lor_land (Z.ldiff a b) (Z.land a b)) as E.
  rewrite Z.lor_ldiff_and in E.
  assert (D : Z.land (Z.ldiff a b) (Z.land a b) = 0).
  { rewrite (Z.land_comm a b), Z.land_assoc, Z.land_ldiff. apply Z.land_0_l. }
  rewrite D in E.
  assert (0 <= Z.ldiff a b) by (apply Z.ldiff_nonneg; auto).
  lia.
Qed.

Lemma andDiff_le A B C r c :
  andDiff A B C r c <= Z.abs (px A r c - px B r c) /\
  andDiff A B C r c <= Z.abs (px B r c - px C r c).
Proof.
  unfold andDiff. split.
  - apply land_le_l; lia.
  - rewrite Z.land_comm. apply land_le_l; lia.
Qed.

(** X1: the mask does not depend on the direction of time: the frames in
    the order C, B, A give the mask of A, B, C. *)
Theorem mask_time_reversal (h w : nat) (A B C : Mat) (t : Z) :
  Frame h w A -> Frame h w B -> Frame h w C ->
  getInterframeDiff C B A t = getInterframeDiff A B C t.
Proof.
  intros HA HB HC. rewrite !(getInterframeDiff_eq h w) by auto.
  apply f_equal, (computeMask_ext h w); auto.
  intros r c _ _. unfold changed, andDiff.
  rewrite Z.land_comm. do 2 f_equal; lia.
Qed.

Lemma mask_time_reversal_witness :
  getInterframeDiff ring3_200 ring3_100 gray3 15
  = getInterframeDiff gray3 ring3_100 ring3_200 15.
Proof. apply (mask_time_reversal 3 3); frame_tac. Defined.

(** Where no sample passes the binarization the mask is all zero. *)
Lemma unchanged_zero_mask h w A B C t :
  Frame h w A -> Frame h w B -> Frame h w C ->
  (forall r c, 0 <= r < Z.of_nat h -> 0 <= c < Z.of_nat w ->
               changed A B C t r c = false) ->
  Spec.computeMask A B C t = repeat (repeat 0 w) h.
Proof.
  intros HA HB HC H.
  apply rect_const; [now apply computeMask_rect|].
  intros r c Hr Hc. rewrite (computeMask_px h w A B C HA HB) by auto.
  unfold aperture. cbv zeta. cbn [map fst snd].
  rewrite !H by (apply inside_range; apply HA). reflexivity.
Qed.



(** X3: a uniform change of brightness leaves the mask as it is.  If three
    frames are the frames A, B, C with one offset [k] added to every sample
    (and are still 8-bit frames), their mask is the mask of A, B, C. *)
Theorem brightness_shift_invariant
        (h w : nat) (A B C A' B' C' : Mat) (k t : Z) :
  Frame h w A -> Frame h w B -> Frame h w C ->
  Frame h w A' -> Frame h w B' -> Frame h w C' ->
  (forall r c, 0 <= r < Z.of_nat h -> 0 <= c < Z.of_nat w ->
     px A' r c = px A r c + k /\ px B' r c = px B r c + k /\
     px C' r c = px C r c + k) ->
  getInterframeDiff A' B' C' t = getInterframeDiff A B C t.
Proof.
  intros HA HB HC HA' HB' HC' H. rewrite !(getInterframeDiff_eq h w) by auto.
  apply f_equal, (computeMask_ext h w); auto.
  intros r c Hr Hc. unfold changed, andDiff.
  destruct (H r c Hr Hc) as (-> & -> & ->).
  do 3 f_equal; lia.
Qed.

Lemma brightness_shift_invariant_witness :
  getInterframeDiff
    [[50; 50; 50]; [50; 50; 50]; [50; 50; 50]]
    [[150; 150; 150]; [150; 50; 150]; [150; 150; 150]]
    [[250; 250; 250]; [250; 50; 250]; [250; 250; 250]] 15
  = getInterframeDiff gray3 ring3_100 ring3_200 15.
Proof.
  apply (brightness_shift_invariant 3 3 gray3 ring3_100 ring3_200 _ _ _ 50 15);
    try frame_tac.
  intros r c Hr Hc.
  assert (Er : r = 0 \/ r = 1 \/ r = 2) by lia.
  assert (Ec : c = 0 \/ c = 1 \/ c = 2) by lia.
  destruct Er as [->|[->| ->]]; destruct Ec as [->|[->| ->]];
    repeat split; reflexivity.
Defined.

(** X4: the top of the threshold range detects nothing: from 255 up, as
    far as a C [int] reaches, the mask of any three frames of one shape is
    all zero. *)
Theorem top_threshold_detects_nothing (h w : nat) (A B C : Mat) (t : Z) :
  Frame h w A -> Frame h w B -> Frame h w C ->
  255 <= t -> int32 t ->
  getInterframeDiff A B C t = Ok (repeat (repeat 0 w) h).
Proof.
  intros HA HB HC Ht _. rewrite (getInterframeDiff_eq h w) by auto.
  apply f_equal, unchanged_zero_mask; auto.
  intros r c Hr Hc.
  pose proof (andDiff_u8 h w A B C r c HA HB HC Hr Hc) as Hu.
  unfold changed, u8 in *. lia.
Qed.

Lemma top_threshold_detects_nothing_witness :
  getInterframeDiff gray3 ring3_100 ring3_200 255
  = Ok (repeat (repeat 0 3%nat) 3%nat).
Proof.
  apply (top_threshold_detects_nothing 3 3);
    first [frame_tac | unfold int32; lia | lia].
Defined.

Lemma bw_0 b : bw b = 0 <-> b = false.
Proof. destruct b; simpl; split; intros; congruence. Qed.

(** X5: a sample of the mask is a vote of its 3 x 3 aperture, the border
    replicated: it is 255 exactly when at least five of the nine samples
    have the AND of their two differences above the threshold, and 0
    otherwise. *)
Theorem mask_sample_is_majority_vote
        (h w : nat) (A B C : Mat) (t r c : Z) :
  Frame h w A -> Frame h w B -> Frame h w C ->
  0 <= r < Z.of_nat h -> 0 <= c < Z.of_nat w ->
  exists mask,
    getInterframeDiff A B C t = Ok mask /\
    let n := votes (map (fun p => andDiff A B C (fst p) (snd p) >? t)
                        (aperture h w r c)) in
    (px mask r c = 255 <-> (5 <= n)%nat) /\
    (px mask r c = 0 <-> (n <= 4)%nat).
Proof.
  intros HA HB HC Hr Hc. exists (Spec.computeMask A B C t).
  split; [now apply (getInterframeDiff_eq h w)|]. cbv zeta.
  rewrite (computeMask_px h w A B C HA HB) by auto.
  unfold changed, majority. rewrite length_map.
  change (length (aperture h w r c) / 2)%nat with 4%nat.
  set (n := votes _).
  clearbody n. split.
  - rewrite bw_255, Nat.ltb_lt. lia.
  - rewrite bw_0, Nat.ltb_ge. lia.
Qed.

Lemma mask_sample_is_majority_vote_witness :
  exists mask,
    getInterframeDiff gray3 ring3_100 ring3_200 15 = Ok mask /\
    let n := votes (map (fun p => andDiff gray3 ring3_100 ring3_200
                                          (fst p) (snd p) >? 15)
                        (aperture 3 3 1 1)) in
    (px mask 1 1 = 255 <-> (5 <= n)%nat) /\
    (px mask 1 1 = 0 <-> (n <= 4)%nat).
Proof.
  apply (mask_sample_is_majority_vote 3 3); first [frame_tac | lia].
Defined.

(** X6: the binarized image is 255 only where both transitions differ by
    more than the threshold: the AND of the two differences is at most
    either of them. *)
Theorem binarized_needs_both_differences
        (h w : nat) (A B C : Mat) (t r c : Z) :
  Frame h w A -> Frame h w B -> Frame h w C ->
  0 <= r < Z.of_nat h -> 0 <= c < Z.of_nat w ->
  exists img_th,
    binarized A B C t = Ok img_th /\
    (px img_th r c = 255 ->
     Z.abs (px A r c - px B r c) > t /\ Z.abs (px B r c - px C r c) > t).
Proof.
  intros HA HB HC Hr Hc. eexists. split; [now apply (binarized_eq h w)|].
  rewrite (binarize_diff_px h w A B C HA HB) by auto.
  rewrite bw_255. unfold changed. intros E.
  pose proof (andDiff_le A B C r c). lia.
Qed.

Lemma binarized_needs_both_differences_witness :
  exists img_th,
    binarized gray3 ring3_100 ring3_200 15 = Ok img_th /\
    (px img_th 0 0 = 255 ->
     Z.abs (px gray3 0 0 - px ring3_100 0 0) > 15 /\
     Z.abs (px ring3_100 0 0 - px ring3_200 0 0) > 15).
Proof.
  apply (binarized_needs_both_differences 3 3); first [frame_tac | lia].
Defined.

Lemma land_bw b1 b2 : Z.land (bw b1) (bw b2) = bw (b1 && b2).
Proof. destruct b1, b2; reflexivity. Qed.

Section Variant.

Variables h w : nat.
Variables A B C : Mat.
Hypothesis HA : Frame h w A.
Hypothesis HB : Frame h w B.
Hypothesis HC : Frame h w C.

Let both := bothChanged A B C.
Let combined := andOfBinarized A B C.

Lemma combined_rect t : rect h w (combined t).
Proof using All.
  unfold combined, andOfBinarized, Spec.bitwiseAnd.
  apply (perPixel_rect h w (proj1 HA)), (binarize_rect h w (proj1 HA)).
  now apply (absoluteDifference_rect h w A HA).
Qed.

Lemma andAfterThreshold_eq t :
  andAfterThreshold A B C t = Ok (Spec.medianFilter (combined t)).
Proof using All.
  pose proof (proj1 HA) as Hh. pose proof (proj1 (proj2 HA)) as Hw.
  unfold andAfterThreshold.
  rewrite (absdiff_step h w Hh Hw A B), (absdiff_step h w Hh Hw B C) by auto.
  cbn [bind].
  rewrite !(threshold_step h w Hh) by now apply (absoluteDifference_rect h w A HA).
  cbn [bind snd].
  rewrite (bitwise_and_step h w Hh)
    by (apply (binarize_rect h w Hh); now apply (absoluteDifference_rect h w A HA)).
  cbn [bind].
  rewrite (medianBlur_step h w Hh Hw) by apply combined_rect.
  reflexivity.
Qed.

Lemma combined_px t r c :
  0 <= r < Z.of_nat h -> 0 <= c < Z.of_nat w ->
  px (combined t) r c = bw (both t r c).
Proof using All.
  intros Hr Hc. pose proof (proj1 HA) as Hh.
  unfold combined, andOfBinarized, Spec.bitwiseAnd.
  rewrite (perPixel_px h w Hh)
    by (auto; apply (binarize_rect h w Hh); now apply (absoluteDifference_rect h w A HA)).
  rewrite !(binarize_px h w Hh) by (auto; now apply (absoluteDifference_rect h w A HA)).
  unfold Spec.absoluteDifference.
  rewrite !(perPixel_px h w Hh) by auto using Frame_rect.
  unfold both, bothChanged.
  destruct (Z.abs (px A r c - px B r c) >? t),
           (Z.abs (px B r c - px C r c) >? t); reflexivity.
Qed.

Lemma andAfterThreshold_px t r c :
  0 <= r < Z.of_nat h -> 0 <= c < Z.of_nat w ->
  px (Spec.medianFilter (combined t)) r c =
  bw (majority (map (fun p => both t (fst p) (snd p)) (aperture h w r c))).
Proof using All.
  intros Hr Hc. pose proof (proj1 HA) as Hh. pose proof (proj1 (proj2 HA)) as Hw.
  rewrite (medianFilter_px h w Hh) by (auto; apply combined_rect).
  rewrite <- median_majority by reflexivity.
  f_equal. unfold Spec.neighbourhood, aperture. cbv zeta.
  rewrite (rect_rows h w _ (combined_rect t)).
  rewrite (rect_cols h w _ (combined_rect t) Hh).
  cbn [map fst snd].
  now rewrite !combined_px by (apply inside_range; auto).
Qed.

Lemma changed_both t r c : changed A B C t r c = true -> both t r c = true.
Proof using All.
  unfold changed, both, bothChanged. intros E.
  pose proof (andDiff_le A B C r c).
  apply andb_true_iff. split; lia.
Qed.

End Variant.

(** X7: the script is the more conservative of the two orders: wherever
    its mask is 255, the mask of the AND-after-threshold variant is 255
    too. *)
Theorem and_before_threshold_is_conservative
        (h w : nat) (A B C : Mat) (t : Z) :
  Frame h w A -> Frame h w B -> Frame h w C ->
  exists mask mask',
    getInterframeDiff A B C t = Ok mask /\
    andAfterThreshold A B C t = Ok mask' /\
    forall r c, 0 <= r < Z.of_nat h -> 0 <= c < Z.of_nat w ->
      px mask r c = 255 -> px mask' r c = 255.
Proof.
  intros HA HB HC. eexists. eexists.
  split; [now apply (getInterframeDiff_eq h w)|].
  split; [now apply (andAfterThreshold_eq h w)|].
  intros r c Hr Hc.
  rewrite (computeMask_px h w A B C HA HB) by auto.
  rewrite (andAfterThreshold_px h w A B C HA HB HC) by auto.
  rewrite !bw_255. apply majority_le, Forall2_map_same.
  intros p _. now apply (changed_both h w A B C HA HB HC).
Qed.

Lemma and_before_threshold_is_conservative_witness :
  exists mask mask',
    getInterframeDiff gray3 ring3_100 ring3_200 15 = Ok mask /\
    andAfterThreshold gray3 ring3_100 ring3_200 15 = Ok mask' /\
    forall r c, 0 <= r < Z.of_nat 3 -> 0 <= c < Z.of_nat 3 ->
      px mask r c = 255 -> px mask' r c = 255.
Proof.
  apply (and_before_threshold_is_conservative 3 3); frame_tac.
Defined.

(** On these frames the script's mask is 255 everywhere, and so is the
    variant's. *)
Example and_before_threshold_is_conservative_run :
  getInterframeDiff gray3 ring3_100 ring3_200 15
  = Ok (repeat (repeat 255 3%nat) 3%nat) /\
  andAfterThreshold gray3 ring3_100 ring3_200 15
  = Ok (repeat (repeat 255 3%nat) 3%nat).
Proof. split; reflexivity. Qed.

Example capture_run_1 :
  Capture.testInterframeDiff Capture.gray601 true
    [Capture.dot 0; Capture.dot 100; Capture.dot 200; Capture.dot 200;
     Capture.dot 200] [-1; 113]
  = ([Capture.PrintType; Capture.Sleep; Capture.Sleep;
      Capture.Sleep; Capture.ShowFrame2 [[100]]; Capture.ShowMask [[255]];
      Capture.Sleep; Capture.ShowFrame2 [[200]]; Capture.ShowMask [[0]];
      Capture.PrintRelease; Capture.Release; Capture.DestroyAllWindows],
     Capture.Returned).
Proof. reflexivity. Qed.

(** ** The capture loop *)

Lemma Forall_firstn {A : Type} (P : A -> Prop) n (l : list A) :
  Forall P l -> Forall P (firstn n l).
Proof.
  intros H. revert n. induction H as [|a l Ha _ IH]; intros [|n]; simpl;
    constructor; auto.
Qed.

Lemma computeMask_binary h w A B C t :
  Frame h w A -> Frame h w B -> Frame h w C ->
  Forall (Forall (fun v => v = 0 \/ v = 255)) (Spec.computeMask A B C t).
Proof.
  intros HA HB HC.
  apply (rect_all _ h w); [now apply computeMask_rect|].
  intros r c Hr Hc. rewrite (computeMask_px h w A B C HA HB) by auto.
  apply bw_binary.
Qed.

Lemma computeMask_shape h w A B C t :
  Frame h w A -> Frame h w B -> Frame h w C ->
  shape (Spec.computeMask A B C t) = (h, w).
Proof.
  intros HA HB HC. pose proof (computeMask_rect h w A B C HA t) as R.
  unfold shape. now rewrite (rect_rows h w _ R), (rect_cols h w _ R (proj1 HA)).
Qed.

Section CaptureLoop.

Import Capture.

Variable rgb2gray : Pixel3 -> Z.
Hypothesis Hgray : forall p, u8 (rgb2gray p).
Variables H W : nat.

Let h : nat := Nat.min 239 H.

Lemma toGray_Frame img : Image H W img -> Frame h W (toGray rgb2gray img).
Proof using All.
  intros (HH & HW & Hl & Hr). unfold Frame, toGray, crop, h.
  split; [lia|]. split; [auto|]. split.
  - rewrite length_map, length_firstn. lia.
  - apply Forall_map, Forall_firstn.
    eapply Forall_impl; [|exact Hr]. intros row Hrow. split.
    + now rewrite length_map.
    + apply Forall_map, Forall_forall. intros p _. apply Hgray.
Qed.

Lemma cvtColor_crop img :
  Image H W img ->
  cvtColor rgb2gray (crop img) = Ok (toGray rgb2gray img).
Proof using All.
  intros (HH & HW & Hl & Hr). unfold toGray, crop.
  destruct img as [|row img]; [simpl in Hl; lia|].
  inversion Hr as [|? ? Hrow _]; subst.
  destruct row as [|p row]; [simpl in HW; lia|]. reflexivity.
Qed.

Lemma grab_cons img feed :
  Image H W img ->
  grab rgb2gray true (img :: feed) = inl (toGray rgb2gray img, feed).
Proof using All.
  intros Himg. unfold grab, read. now rewrite cvtColor_crop.
Qed.

Lemma loop_nil f1 f2 f3 keys :
  Frame h W f1 -> Frame h W f2 -> Frame h W f3 ->
  loop rgb2gray true f1 f2 f3 [] keys =
  ([Sleep; ShowFrame2 f2; ShowMask (Spec.computeMask f1 f2 f3 15)],
   Raised TypeError).
Proof using All.
  intros H1 H2 H3. simpl. now rewrite (getInterframeDiff_eq h W).
Qed.

Lemma loop_cons f1 f2 f3 img feed keys :
  Frame h W f1 -> Frame h W f2 -> Frame h W f3 -> Image H W img ->
  loop rgb2gray true f1 f2 f3 (img :: feed) keys =
  let shown := [Sleep; ShowFrame2 f2; ShowMask (Spec.computeMask f1 f2 f3 15)] in
  if quits (fst (waitKey keys)) then (shown, Returned)
  else
    let rest := loop rgb2gray true f2 f3 (toGray rgb2gray img) feed
                     (snd (waitKey keys)) in
    (shown ++ fst rest, snd rest).
Proof using All.
  intros H1 H2 H3 Himg. simpl loop.
  rewrite (getInterframeDiff_eq h W) by auto. rewrite cvtColor_crop by auto.
  destruct (waitKey keys) as [key keys']. cbn [fst snd].
  destruct (quits key); [reflexivity|].
  now destruct (loop rgb2gray true f2 f3 (toGray rgb2gray img) feed keys').
Qed.

(** The loop, when q comes before the feed ends. *)
Lemma loop_until_q ks :
  forall feed f1 f2 f3 q more,
    Frame h W f1 -> Frame h W f2 -> Frame h W f3 ->
    Forall (Image H W) feed ->
    Forall (fun k => quits k = false) ks -> quits q = true ->
    (length ks < length feed)%nat ->
    let r := loop rgb2gray true f1 f2 f3 feed (ks ++ q :: more) in
    let ws := firstn (S (length ks))
                (windows (f1 :: f2 :: f3 :: map (toGray rgb2gray) feed)) in
    snd r = Returned /\
    shownFrames (fst r) = map windowFrame ws /\
    map Ok (shownMasks (fst r)) = map windowMask ws /\
    ~ In Release (fst r).
Proof using All.
  induction ks as [|k ks IH]; intros feed f1 f2 f3 q more H1 H2 H3 Hfeed Hks Hq Hlen;
    (destruct feed as [|img feed]; [simpl in Hlen; lia|]);
    inversion Hfeed as [|? ? Himg Hfeed']; subst; cbv zeta;
    rewrite loop_cons by auto; cbv zeta; cbn [app waitKey fst snd].
  - rewrite Hq. cbn. rewrite (getInterframeDiff_eq h W) by auto.
    repeat split; auto. intros [E|[E|[E|[]]]]; discriminate.
  - inversion Hks as [|? ? Hk Hks']; subst. rewrite Hk.
    pose proof (toGray_Frame img Himg) as Hg.
    simpl in Hlen.
    destruct (IH feed f2 f3 (toGray rgb2gray img) q more H2 H3 Hg Hfeed' Hks' Hq
                 ltac:(lia)) as (Ho & Hf & Hm & Hr).
    cbn [fst snd]. split; [exact Ho|].
    unfold shownFrames, shownMasks in *.
    cbn [flat_map app length firstn windows map windowFrame windowMask].
    cbn [map windows] in Hf, Hm.
    split; [|split].
    + f_equal. exact Hf.
    + rewrite (getInterframeDiff_eq h W) by auto. f_equal. exact Hm.
    + intros [E|[E|[E|Hin]]]; try discriminate. now apply Hr.
Qed.

(** The loop, when the feed ends before any q. *)
Lemma loop_until_feed_ends feed :
  forall f1 f2 f3 keys,
    Frame h W f1 -> Frame h W f2 -> Frame h W f3 ->
    Forall (Image H W) feed ->
    Forall (fun k => quits k = false) (firstn (length feed) keys) ->
    let r := loop rgb2gray true f1 f2 f3 feed keys in
    let ws := windows (f1 :: f2 :: f3 :: map (toGray rgb2gray) feed) in
    snd r = Raised TypeError /\
    shownFrames (fst r) = map windowFrame ws /\
    map Ok (shownMasks (fst r)) = map windowMask ws.
Proof using All.
  induction feed as [|img feed IH]; intros f1 f2 f3 keys H1 H2 H3 Hfeed Hkeys;
    cbv zeta.
  - rewrite loop_nil by auto. cbn. rewrite (getInterframeDiff_eq h W) by auto.
    auto.
  - inversion Hfeed as [|? ? Himg Hfeed']; subst.
    rewrite loop_cons by auto. cbv zeta.
    pose proof (toGray_Frame img Himg) as Hg.
    assert (Hk : quits (fst (waitKey keys)) = false /\
                 Forall (fun k => quits k = false)
                        (firstn (length feed) (snd (waitKey keys)))).
    { destruct keys as [|k keys]; simpl in *.
      - split; [reflexivity|]. destruct (length feed); constructor.
      - inversion Hkeys; subst. auto. }
    destruct Hk as [Hk Hrest]. rewrite Hk.
    destruct (IH f2 f3 (toGray rgb2gray img) (snd (waitKey keys)) H2 H3 Hg
                 Hfeed' Hrest) as (Ho & Hf & Hm).
    cbn [fst snd]. split; [exact Ho|].
    unfold shownFrames, shownMasks in *.
    cbn [flat_map app windows map windowFrame windowMask].
    cbn [map windows] in Hf, Hm.
    split.
    + f_equal. exact Hf.
    + rewrite (getInterframeDiff_eq h W) by auto. f_equal. exact Hm.
Qed.

End CaptureLoop.

Lemma loop_no_release rgb2gray feed :
  forall opened f1 f2 f3 keys,
    ~ In Capture.Release
         (fst (Capture.loop rgb2gray opened f1 f2 f3 feed keys)).
Proof.
  induction feed as [|img feed IH]; intros opened f1 f2 f3 keys; simpl;
    destruct opened; simpl; try tauto;
    destruct (getInterframeDiff f1 f2 f3 15); simpl;
    try (intros [E|[E|[E|[]]]]; discriminate);
    try (intros [E|[]]; discriminate).
  destruct (Capture.cvtColor rgb2gray (Capture.crop img)); simpl;
    try (intros [E|[E|[E|[]]]]; discriminate).
  destruct (Capture.waitKey keys) as [key keys'].
  destruct (Capture.quits key); simpl;
    try (intros [E|[E|[E|[]]]]; discriminate).
  specialize (IH true f2 f3 a0 keys').
  destruct (Capture.loop rgb2gray true f2 f3 a0 feed keys') as [tr o].
  simpl in *. intros [E|[E|[E|Hin]]]; try discriminate. now apply IH.
Qed.

Lemma shown_prefix tr :
  Capture.shownFrames
    ([Capture.PrintType; Capture.Sleep; Capture.Sleep] ++ tr) =
  Capture.shownFrames tr /\
  Capture.shownMasks
    ([Capture.PrintType; Capture.Sleep; Capture.Sleep] ++ tr) =
  Capture.shownMasks tr.
Proof. split; reflexivity. Qed.

Lemma shown_release tr :
  Capture.shownFrames
    (tr ++ [Capture.PrintRelease; Capture.Release; Capture.DestroyAllWindows])
  = Capture.shownFrames tr /\
  Capture.shownMasks
    (tr ++ [Capture.PrintRelease; Capture.Release; Capture.DestroyAllWindows])
  = Capture.shownMasks tr.
Proof.
  unfold Capture.shownFrames, Capture.shownMasks.
  rewrite !flat_map_app. simpl. now rewrite !app_nil_r.
Qed.

(** X8: the loop slides a window of three frames over the camera feed.
    When the first key whose low byte is that of q comes at the [n]-th
    poll and the camera still delivers, the function returns, having shown
    for each of the first [n] triples of consecutive gray frames its middle
    frame and the mask [getInterframeDiff] gives it at threshold 15, and
    having released the camera last. *)
Theorem capture_slides_window_until_q
        (rgb2gray : Capture.Pixel3 -> Z) (H W : nat)
        (feed : list Capture.Image3) (ks : list Z) (q : Z) (more : list Z) :
  (forall p, u8 (rgb2gray p)) ->
  Forall (Capture.Image H W) feed ->
  Forall (fun k => Capture.quits k = false) ks ->
  Capture.quits q = true ->
  (length ks + 3 < length feed)%nat ->
  exists tr,
    Capture.testInterframeDiff rgb2gray true feed (ks ++ q :: more)
    = (tr, Capture.Returned) /\
    let ws := firstn (S (length ks))
                (Capture.windows (map (Capture.toGray rgb2gray) feed)) in
    Capture.shownFrames tr = map Capture.windowFrame ws /\
    map Ok (Capture.shownMasks tr) = map Capture.windowMask ws /\
    exists tr0,
      tr = tr0 ++ [Capture.PrintRelease; Capture.Release;
                   Capture.DestroyAllWindows].
Proof.
  intros Hgray Hfeed Hks Hq Hlen.
  destruct feed as [|i1 [|i2 [|i3 feed]]]; try (simpl in Hlen; lia).
  inversion Hfeed as [|? ? Hi1 Hf1]; subst.
  inversion Hf1 as [|? ? Hi2 Hf2]; subst.
  inversion Hf2 as [|? ? Hi3 Hf3]; subst.
  unfold Capture.testInterframeDiff.
  rewrite !(grab_cons rgb2gray Hgray H W) by auto.
  pose proof (toGray_Frame rgb2gray Hgray H W i1 Hi1) as G1.
  pose proof (toGray_Frame rgb2gray Hgray H W i2 Hi2) as G2.
  pose proof (toGray_Frame rgb2gray Hgray H W i3 Hi3) as G3.
  assert (Hlen' : (length ks < length feed)%nat) by (simpl in Hlen; lia).
  destruct (loop_until_q rgb2gray Hgray H W ks feed _ _ _ q more
              G1 G2 G3 Hf3 Hks Hq Hlen') as (Ho & Hfr & Hm & _).
  destruct (Capture.loop _ _ _ _ _ _ _) as [tr o]. cbn [fst snd] in *. subst o.
  eexists. split; [reflexivity|]. cbv zeta.
  destruct (shown_prefix
              (tr ++ [Capture.PrintRelease; Capture.Release;
                      Capture.DestroyAllWindows])) as [-> ->].
  destruct (shown_release tr) as [-> ->].
  split; [exact Hfr|]. split; [exact Hm|].
  exists ([Capture.PrintType; Capture.Sleep; Capture.Sleep] ++ tr).
  now rewrite app_assoc.
Qed.

Lemma gray601_u8 p : u8 (Capture.gray601 p).
Proof.
  destruct p as [[r g] b]. unfold Capture.gray601, Cv2.saturate_u8, u8. lia.
Qed.

Ltac image_tac :=
  repeat (first [apply Forall_nil | apply Forall_cons]);
  unfold Capture.Image; repeat split; simpl;
  repeat (first [apply Forall_nil | apply Forall_cons]);
  first [lia | reflexivity].

Lemma capture_slides_window_until_q_witness :
  exists tr,
    Capture.testInterframeDiff Capture.gray601 true
      [Capture.dot 0; Capture.dot 100; Capture.dot 200; Capture.dot 200;
       Capture.dot 200] ([-1] ++ 113 :: [])
    = (tr, Capture.Returned) /\
    let ws := firstn 2
                (Capture.windows
                   (map (Capture.toGray Capture.gray601)
                      [Capture.dot 0; Capture.dot 100; Capture.dot 200;
                       Capture.dot 200; Capture.dot 200])) in
    Capture.shownFrames tr = map Capture.windowFrame ws /\
    map Ok (Capture.shownMasks tr) = map Capture.windowMask ws /\
    exists tr0,
      tr = tr0 ++ [Capture.PrintRelease; Capture.Release;
                   Capture.DestroyAllWindows].
Proof.
  apply (capture_slides_window_until_q Capture.gray601 1 1).
  - intros [[r g] b]. unfold Capture.gray601, Cv2.saturate_u8, u8. lia.
  - image_tac.
  - repeat constructor.
  - reflexivity.
  - simpl. lia.
Defined.

Lemma windows_length l :
  forall a b, length (Capture.windows (a :: b :: l)) = length l.
Proof.
  induction l as [|c l IH]; intros a b; [reflexivity|].
  change (Capture.windows (a :: b :: c :: l))
    with ((a, b, c) :: Capture.windows (b :: c :: l)).
  cbn [length]. f_equal. apply IH.
Qed.

(** X9: when no q comes before the camera stops delivering, the function
    does not return: the read after the last image gives [None], the
    subscript raises TypeError, and the camera is never released.  Until
    then it has shown every triple of consecutive gray frames, two fewer
    than the images read. *)
Theorem capture_fails_when_feed_ends
        (rgb2gray : Capture.Pixel3 -> Z) (H W : nat)
        (feed : list Capture.Image3) (keys : list Z) :
  (forall p, u8 (rgb2gray p)) ->
  Forall (Capture.Image H W) feed ->
  (3 <= length feed)%nat ->
  Forall (fun k => Capture.quits k = false) (firstn (length feed - 3) keys) ->
  exists tr,
    Capture.testInterframeDiff rgb2gray true feed keys
    = (tr, Capture.Raised Capture.TypeError) /\
    let ws := Capture.windows (map (Capture.toGray rgb2gray) feed) in
    Capture.shownFrames tr = map Capture.windowFrame ws /\
    map Ok (Capture.shownMasks tr) = map Capture.windowMask ws /\
    length (Capture.shownMasks tr) = (length feed - 2)%nat /\
    ~ In Capture.Release tr.
Proof.
  intros Hgray Hfeed Hlen Hkeys.
  destruct feed as [|i1 [|i2 [|i3 feed]]]; try (simpl in Hlen; lia).
  inversion Hfeed as [|? ? Hi1 Hf1]; subst.
  inversion Hf1 as [|? ? Hi2 Hf2]; subst.
  inversion Hf2 as [|? ? Hi3 Hf3]; subst.
  unfold Capture.testInterframeDiff.
  rewrite !(grab_cons rgb2gray Hgray H W) by auto.
  pose proof (toGray_Frame rgb2gray Hgray H W i1 Hi1) as G1.
  pose proof (toGray_Frame rgb2gray Hgray H W i2 Hi2) as G2.
  pose proof (toGray_Frame rgb2gray Hgray H W i3 Hi3) as G3.
  replace (length (i1 :: i2 :: i3 :: feed) - 3)%nat with (length feed) in Hkeys
    by (simpl; lia).
  destruct (loop_until_feed_ends rgb2gray Hgray H W feed _ _ _ keys
              G1 G2 G3 Hf3 Hkeys) as (Ho & Hfr & Hm).
  pose proof (loop_no_release rgb2gray feed true
                (Capture.toGray rgb2gray i1) (Capture.toGray rgb2gray i2)
                (Capture.toGray rgb2gray i3) keys) as Hrel.
  destruct (Capture.loop _ _ _ _ _ _ _) as [tr o]. cbn [fst snd] in *. subst o.
  eexists. split; [reflexivity|]. cbv zeta.
  destruct (shown_prefix tr) as [-> ->].
  split; [exact Hfr|]. split; [exact Hm|]. split.
  - apply (f_equal (@length _)) in Hm. rewrite !length_map in Hm. rewrite Hm.
    cbn [map]. rewrite windows_length. simpl. rewrite length_map. lia.
  - intros [E|[E|[E|Hin]]]; try discriminate. now apply Hrel.
Qed.

Lemma capture_fails_when_feed_ends_witness :
  exists tr,
    Capture.testInterframeDiff Capture.gray601 true
      [Capture.dot 0; Capture.dot 100; Capture.dot 200; Capture.dot 200] []
    = (tr, Capture.Raised Capture.TypeError) /\
    let ws := Capture.windows
                (map (Capture.toGray Capture.gray601)
                   [Capture.dot 0; Capture.dot 100; Capture.dot 200;
                    Capture.dot 200]) in
    Capture.shownFrames tr = map Capture.windowFrame ws /\
    map Ok (Capture.shownMasks tr) = map Capture.windowMask ws /\
    length (Capture.shownMasks tr) = (4 - 2)%nat /\
    ~ In Capture.Release tr.
Proof.
  apply (capture_fails_when_feed_ends Capture.gray601 1 1).
  - intros [[r g] b]. unfold Capture.gray601, Cv2.saturate_u8, u8. lia.
  - image_tac.
  - simpl. lia.
  - simpl. constructor.
Defined.

(** X10: the camera is released exactly when the function returns: a run
    that ends in an exception, whichever it is, leaves the camera open. *)
Theorem capture_releases_iff_returns
        (rgb2gray : Capture.Pixel3 -> Z) (opened : bool)
        (feed : list Capture.Image3) (keys : list Z) :
  let run := Capture.testInterframeDiff rgb2gray opened feed keys in
  In Capture.Release (fst run) <-> snd run = Capture.Returned.
Proof.
  cbv zeta. unfold Capture.testInterframeDiff.
  destruct (Capture.grab rgb2gray opened feed) as [[f1 feed1]|e1]; cbn [fst snd];
    [|split; [intros []|discriminate]].
  destruct (Capture.grab rgb2gray opened feed1) as [[f2 feed2]|e2]; cbn [fst snd];
    [|split; [intros [E|[E|[]]]; discriminate|discriminate]].
  destruct (Capture.grab rgb2gray opened feed2) as [[f3 feed3]|e3]; cbn [fst snd];
    [|split; [intros [E|[E|[E|[]]]]; discriminate|discriminate]].
  pose proof (loop_no_release rgb2gray feed3 opened f1 f2 f3 keys) as Hrel.
  destruct (Capture.loop rgb2gray opened f1 f2 f3 feed3 keys) as [tr o].
  cbn [fst snd] in *. destruct o as [|e]; cbn [fst snd].
  - split; [intros _; reflexivity | intros _].
    apply in_or_app. right. apply in_or_app. right. simpl. auto.
  - split; [|discriminate].
    intros [E|[E|[E|Hin]]]; try discriminate. now apply Hrel in Hin.
Qed.

Lemma loop_shapes rgb2gray (Hgray : forall p, u8 (rgb2gray p)) H W feed :
  forall opened f1 f2 f3 keys,
    Frame (Nat.min 239 H) W f1 -> Frame (Nat.min 239 H) W f2 ->
    Frame (Nat.min 239 H) W f3 ->
    Forall (Capture.Image H W) feed ->
    let tr := fst (Capture.loop rgb2gray opened f1 f2 f3 feed keys) in
    Forall (fun m => shape m = (Nat.min 239 H, W)) (Capture.shownFrames tr) /\
    Forall (fun m => shape m = (Nat.min 239 H, W) /\
                     Forall (Forall (fun v => v = 0 \/ v = 255)) m)
           (Capture.shownMasks tr).
Proof.
  induction feed as [|img feed IH]; intros opened f1 f2 f3 keys H1 H2 H3 Hfeed;
    cbv zeta; (destruct opened; [|simpl; split; constructor]).
  - rewrite (loop_nil rgb2gray Hgray H W) by auto. simpl. split.
    + constructor; [now apply Frame_shape|constructor].
    + constructor; [|constructor]. split.
      * now apply computeMask_shape.
      * now apply (computeMask_binary (Nat.min 239 H) W).
  - inversion Hfeed as [|? ? Himg Hfeed']; subst.
    rewrite (loop_cons rgb2gray Hgray H W) by auto. cbv zeta.
    assert (Hhead :
      Forall (fun m => shape m = (Nat.min 239 H, W)) [f2] /\
      Forall (fun m => shape m = (Nat.min 239 H, W) /\
                       Forall (Forall (fun v => v = 0 \/ v = 255)) m)
             [Spec.computeMask f1 f2 f3 15]).
    { split.
      - constructor; [now apply Frame_shape|constructor].
      - constructor; [|constructor]. split.
        + now apply computeMask_shape.
        + now apply (computeMask_binary (Nat.min 239 H) W). }
    destruct Hhead as [Hf Hm].
    destruct (Capture.quits (fst (Capture.waitKey keys))); cbn [fst].
    + simpl. auto.
    + pose proof (toGray_Frame rgb2gray Hgray H W img Himg) as Hg.
      destruct (IH true f2 f3 (Capture.toGray rgb2gray img)
                   (snd (Capture.waitKey keys)) H2 H3 Hg Hfeed') as [IHf IHm].
      unfold Capture.shownFrames, Capture.shownMasks in *.
      cbn [flat_map app]. split.
      * inversion Hf; subst. constructor; auto.
      * inversion Hm; subst. constructor; auto.
Qed.

Lemma grab_image rgb2gray H W img feed :
  Capture.Image H W img ->
  Capture.grab rgb2gray true (img :: feed)
  = inl (Capture.toGray rgb2gray img, feed).
Proof.
  intros (HH & HW & Hl & Hr). unfold Capture.grab, Capture.read.
  unfold Capture.toGray, Capture.crop.
  destruct img as [|row img]; [simpl in Hl; lia|].
  inversion Hr as [|? ? Hrow _]; subst.
  destruct row as [|p row]; [simpl in HW; lia|]. reflexivity.
Qed.

Lemma grab_closed rgb2gray feed : Capture.grab rgb2gray false feed = inr Capture.TypeError.
Proof. reflexivity. Qed.

(** X11: whatever the keys and however the run ends, every frame and every
    mask shown has the shape of the cropped camera image, at most 239 rows
    (the slice 0:239 keeps rows 0 to 238, so the last row of a 240-row image
    is never shown), and every mask shown holds only 0 and 255. *)
Theorem capture_shows_cropped_binary
        (rgb2gray : Capture.Pixel3 -> Z) (H W : nat) (opened : bool)
        (feed : list Capture.Image3) (keys : list Z) :
  (forall p, u8 (rgb2gray p)) ->
  Forall (Capture.Image H W) feed ->
  let tr := fst (Capture.testInterframeDiff rgb2gray opened feed keys) in
  Forall (fun m => shape m = (Nat.min 239 H, W)) (Capture.shownFrames tr) /\
  Forall (fun m => shape m = (Nat.min 239 H, W) /\
                   Forall (Forall (fun v => v = 0 \/ v = 255)) m)
         (Capture.shownMasks tr).
Proof.
  intros Hgray Hfeed. cbv zeta. unfold Capture.testInterframeDiff.
  destruct opened; [|rewrite grab_closed; simpl; split; constructor].
  destruct feed as [|i1 feed]; [simpl; split; constructor|].
  inversion Hfeed as [|? ? Hi1 Hf1]; subst.
  rewrite (grab_image rgb2gray H W) by auto.
  destruct feed as [|i2 feed]; [simpl; split; constructor|].
  inversion Hf1 as [|? ? Hi2 Hf2]; subst.
  rewrite (grab_image rgb2gray H W) by auto.
  destruct feed as [|i3 feed]; [simpl; split; constructor|].
  inversion Hf2 as [|? ? Hi3 Hf3]; subst.
  rewrite (grab_image rgb2gray H W) by auto.
  pose proof (toGray_Frame rgb2gray Hgray H W i1 Hi1) as G1.
  pose proof (toGray_Frame rgb2gray Hgray H W i2 Hi2) as G2.
  pose proof (toGray_Frame rgb2gray Hgray H W i3 Hi3) as G3.
  destruct (loop_shapes rgb2gray Hgray H W feed true _ _ _ keys G1 G2 G3 Hf3)
    as [Hfr Hm].
  destruct (Capture.loop _ _ _ _ _ _ _) as [tr o]. cbn [fst snd] in *.
  destruct o; cbn [fst].
  - destruct (shown_prefix
                (tr ++ [Capture.PrintRelease; Capture.Release;
                        Capture.DestroyAllWindows])) as [-> ->].
    destruct (shown_release tr) as [-> ->]. auto.
  - destruct (shown_prefix tr) as [-> ->]. auto.
Qed.

Lemma column_Image n v : (0 < n)%nat -> Capture.Image n 1 (Capture.column n v).
Proof.
  intros Hn. unfold Capture.Image, Capture.column.
  split; [auto|]. split; [lia|]. split; [apply repeat_length|].
  apply Forall_forall. intros row Hrow. apply repeat_spec in Hrow. now subst.
Qed.

Lemma capture_shows_cropped_binary_witness :
  let tr := fst (Capture.testInterframeDiff Capture.gray601 true
                   [Capture.column 240 0; Capture.column 240 100;
                    Capture.column 240 200; Capture.column 240 200]
                   [113]) in
  Forall (fun m => shape m = (Nat.min 239 240, 1%nat)) (Capture.shownFrames tr) /\
  Forall (fun m => shape m = (Nat.min 239 240, 1%nat) /\
                   Forall (Forall (fun v => v = 0 \/ v = 255)) m)
         (Capture.shownMasks tr).
Proof.
  apply (capture_shows_cropped_binary Capture.gray601 240 1 true).
  - intros [[r g] b]. unfold Capture.gray601, Cv2.saturate_u8, u8. lia.
  - repeat (first [apply Forall_nil | apply Forall_cons]);
      apply column_Image; lia.
Defined.

Example capture_drops_row_239 :
  Capture.shownFrames
    (fst (Capture.testInterframeDiff Capture.gray601 true
            [Capture.column 240 0; Capture.column 240 100;
             Capture.column 240 200; Capture.column 240 200] [113]))
  = [repeat [100] 239].
Proof. vm_compute. reflexivity. Qed.

(** X12: with the camera not open, or with fewer than three images to
    deliver, the function raises TypeError while it fills its window: it
    shows nothing. *)
Theorem capture_needs_three_images
        (rgb2gray : Capture.Pixel3 -> Z) (H W : nat) (opened : bool)
        (feed : list Capture.Image3) (keys : list Z) :
  Forall (Capture.Image H W) feed ->
  opened = false \/ (length feed < 3)%nat ->
  exists tr,
    Capture.testInterframeDiff rgb2gray opened feed keys
    = (tr, Capture.Raised Capture.TypeError) /\
    Capture.shownFrames tr = [] /\ Capture.shownMasks tr = [].
Proof.
  intros Hfeed Hcase. unfold Capture.testInterframeDiff.
  destruct opened.
  - destruct Hcase as [E|Hlen]; [discriminate|].
    destruct feed as [|i1 feed]; [simpl; eauto|].
    inversion Hfeed as [|? ? Hi1 Hf1]; subst.
    rewrite (grab_image rgb2gray H W) by auto.
    destruct feed as [|i2 feed]; [simpl; eauto|].
    inversion Hf1 as [|? ? Hi2 Hf2]; subst.
    rewrite (grab_image rgb2gray H W) by auto.
    destruct feed as [|i3 feed]; [simpl; eauto|].
    simpl in Hlen. lia.
  - rewrite grab_closed. simpl. eauto.
Qed.

Lemma capture_needs_three_images_witness :
  exists tr,
    Capture.testInterframeDiff Capture.gray601 true
      [Capture.dot 0; Capture.dot 100] [113]
    = (tr, Capture.Raised Capture.TypeError) /\
    Capture.shownFrames tr = [] /\ Capture.shownMasks tr = [].
Proof.
  apply (capture_needs_three_images Capture.gray601 1 1).
  - image_tac.
  - right. simpl. lia.
Defined.
